(** * ch12/miscdrv_rdwr: the 'secret' misc character driver

    A shallow embedding of [miscdrv_rdwr.c]: the driver context
    [struct drv_ctx], the four file operations and [miscdrv_init], together
    with the kernel helpers they call ([strnlen], [strlcpy], [memset],
    [copy_from_user], [copy_to_user], [kvmalloc]/[kvfree]).

    Conventions.
    - A C [int] is a [Z] kept in range by [to_int]; the kernel is built with
      [-fno-strict-overflow], so [+=] on an [int] wraps modulo 2^32.
    - A [size_t] argument is a [Z]; callers pass [0 <= count < 2^64].
    - A [char] buffer is a [list byte]; index [i] of the list is [buf[i]].
    - User memory behind a [__user] pointer is the list of bytes that can
      be accessed from that address on: an access running past the end of
      the list is the page fault that makes [copy_*_user] return non-zero. *)

From Stdlib Require Import ZArith Lia.
From Stdlib Require Import Strings.Byte.
From Stdlib Require Strings.String.
Import Stdlib.Strings.String.StringSyntax.
Local Delimit Scope string_scope with string.
From stdpp Require Import base list.

Local Open Scope Z_scope.

(** ** C integers *)

Module CInt.

Definition INT_MAX : Z := 2 ^ 31 - 1.
Definition INT_MIN : Z := - 2 ^ 31.
Definition SIZE_MAX : Z := 2 ^ 64 - 1.

(** Conversion of an integer value to [int]: reduction modulo 2^32 into
    [INT_MIN .. INT_MAX]. *)
Definition to_int (z : Z) : Z := (z + 2 ^ 31) mod 2 ^ 32 - 2 ^ 31.

Definition in_int (z : Z) : Prop := INT_MIN <= z <= INT_MAX.
Definition is_size_t (z : Z) : Prop := 0 <= z <= SIZE_MAX.

End CInt.
Import CInt.

(** errno values (include/uapi/asm-generic/errno-base.h) *)
Definition ENOMEM : Z := 12.
Definition EFAULT : Z := 14.
Definition EINVAL : Z := 22.

(** ** Kernel string and memory helpers *)

Definition NUL : byte := x00.

Definition is_nul (c : byte) : bool := Byte.eqb c NUL.

(** [memcpy(dest, src, n)]: the first [n] bytes of [dest] become the first
    [n] bytes of [src]. *)
Definition memcpy (dest src : list byte) (n : nat) : list byte :=
  take n src ++ drop n dest.

(** [memset(s, c, n)] *)
Definition memset (s : list byte) (c : byte) (n : nat) : list byte :=
  replicate n c ++ drop n s.

(** lib/string.c [strnlen(s, count)]:
    [for (sc = s; count-- && *sc != '\0'; ++sc);  return sc - s;] *)
Fixpoint strnlen (s : list byte) (count : nat) : nat :=
  match count, s with
  | S count', c :: s' => if is_nul c then O else S (strnlen s' count')
  | _, _ => O
  end.

(** lib/string.c [strlen(s)], where [s] lists the memory from the pointer
    on: the scan is not bounded by the size of any object. This is the
    value returned when the scan meets a NUL in [s]; on memory without one
    the call does not return (see [strlen_returns]). *)
Definition strlen (s : list byte) : nat := strnlen s (length s).

(** lib/string.c [strlcpy(dest, src, size)]:
<<
    size_t ret = strlen(src);
    if (size) {
        size_t len = (ret >= size) ? size - 1 : ret;
        memcpy(dest, src, len);
        dest[len] = '\0';
    }
    return ret;
>> *)
Definition strlcpy (dest src : list byte) (size : Z) : list byte * Z :=
  let ret := Z.of_nat (strlen src) in
  if size =? 0 then (dest, ret)
  else
    let len := Z.to_nat (if ret >=? size then size - 1 else ret) in
    (<[len := NUL]> (memcpy dest src len), ret).

(** The length [strlcpy] copies: [(ret >= size) ? size - 1 : ret]. *)
Definition copied_len (src : list byte) (size : Z) : nat :=
  Nat.min (strlen src) (Z.to_nat size - 1).

(** ** Crossing the user/kernel boundary *)

(** [copy_from_user(to, from, n)]: copies as many of the [n] bytes as can
    be read from user memory [from], zero-fills what is left of the [n]
    bytes of [to], and returns the number of bytes NOT copied. *)
Definition copy_from_user (to from : list byte) (n : Z) : list byte * Z :=
  let copied := Z.min n (Z.of_nat (length from)) in
  (take (Z.to_nat copied) from
     ++ replicate (Z.to_nat (n - copied)) NUL
     ++ drop (Z.to_nat n) to,
   n - copied).

(** [copy_to_user(to, from, n)]: copies as many of the [n] bytes as can be
    written to user memory [to] and returns the number NOT copied. *)
Definition copy_to_user (to from : list byte) (n : Z) : list byte * Z :=
  let copied := Z.min n (Z.of_nat (length to)) in
  (memcpy to from (Z.to_nat copied), n - copied).

(** What [kvmalloc] hands out: [None] is a NULL return; [Some mem] is the
    memory found at the returned address, from there on (the bytes of the
    new object, not yet initialised, and whatever lies behind it). *)
Definition kvmalloc (heap : option (list byte)) (size : Z)
  : option (list byte) := heap.

(** Calls that allocate, release or cross the user boundary, in the order
    an invocation makes them. *)
Inductive kcall : Type :=
  | Kvmalloc (size : Z) (ok : bool)
  | CopyFromUser (n notcopied : Z)
  | CopyToUser (n notcopied : Z)
  | Kvfree.

(** Staging buffers still held after a sequence of calls. *)
Fixpoint live_buffers (cs : list kcall) : Z :=
  match cs with
  | [] => 0
  | Kvmalloc _ true :: cs' => live_buffers cs' + 1
  | Kvfree :: cs' => live_buffers cs' - 1
  | _ :: cs' => live_buffers cs'
  end.

(** ** The driver context *)

Definition MAXBYTES : Z := 128.

(** [struct drv_ctx] *)
Record drv_ctx : Type := mk_drv_ctx {
  tx : Z;  rx : Z;  err : Z;  myword : Z;      (* int *)
  config1 : Z;  config2 : Z;                    (* u32 *)
  config3 : Z;                                  (* u64 *)
  oursecret : list byte                         (* char [MAXBYTES] *)
}.

Definition set_tx (c : drv_ctx) (v : Z) : drv_ctx :=
  mk_drv_ctx v (rx c) (err c) (myword c)
             (config1 c) (config2 c) (config3 c) (oursecret c).

Definition set_rx (c : drv_ctx) (v : Z) : drv_ctx :=
  mk_drv_ctx (tx c) v (err c) (myword c)
             (config1 c) (config2 c) (config3 c) (oursecret c).

Definition set_oursecret (c : drv_ctx) (s : list byte) : drv_ctx :=
  mk_drv_ctx (tx c) (rx c) (err c) (myword c)
             (config1 c) (config2 c) (config3 c) s.

(** A context as the C type describes it: the array has [MAXBYTES]
    elements and the counters are [int]s. *)
Definition wf_ctx (c : drv_ctx) : Prop :=
  length (oursecret c) = Z.to_nat MAXBYTES /\ in_int (tx c) /\ in_int (rx c).

(** What one invocation of a file operation leaves behind: the value
    returned, the context, the caller's buffer and the calls made. *)
Record outcome : Type := mk_outcome {
  ret : Z;
  ctx_after : drv_ctx;
  ubuf_after : list byte;
  calls : list kcall
}.

(** ** The driver methods *)

(** [read_miscdrv_rdwr(filp, ubuf, count, off)] *)
Definition read_miscdrv_rdwr (ctx : drv_ctx) (ubuf : list byte) (count : Z)
  : outcome :=
  let secret_len :=
    to_int (Z.of_nat (strnlen (oursecret ctx) (Z.to_nat MAXBYTES))) in
  (* ret = -EINVAL *)
  if count <? MAXBYTES then mk_outcome (- EINVAL) ctx ubuf []
  else if secret_len <=? 0 then mk_outcome (- EINVAL) ctx ubuf []
  else
    (* ret = -EFAULT *)
    let '(ubuf', notcopied) := copy_to_user ubuf (oursecret ctx) secret_len in
    let cs := [CopyToUser secret_len notcopied] in
    if negb (notcopied =? 0) then mk_outcome (- EFAULT) ctx ubuf' cs
    else
      (* ret = secret_len;  ctx->tx += secret_len *)
      mk_outcome secret_len (set_tx ctx (to_int (tx ctx + secret_len)))
                 ubuf' cs.

(** [write_miscdrv_rdwr(filp, ubuf, count, off)] *)
Definition write_miscdrv_rdwr (heap : option (list byte)) (ctx : drv_ctx)
    (ubuf : list byte) (count : Z) : outcome :=
  (* int ret = count *)
  let ret0 := to_int count in
  if count >? MAXBYTES then mk_outcome ret0 ctx ubuf []   (* goto out_nomem *)
  else
    (* ret = -ENOMEM *)
    match kvmalloc heap count with
    | None => mk_outcome (- ENOMEM) ctx ubuf [Kvmalloc count false]
    | Some kbuf =>
      let kbuf := memset kbuf NUL (Z.to_nat count) in
      (* ret = -EFAULT *)
      let '(kbuf, notcopied) := copy_from_user kbuf ubuf count in
      let cs := [Kvmalloc count true; CopyFromUser count notcopied; Kvfree] in
      if negb (notcopied =? 0) then mk_outcome (- EFAULT) ctx ubuf cs
      else
        let '(secret, _) :=
          strlcpy (oursecret ctx) kbuf
                  (if count >? MAXBYTES then MAXBYTES else count) in
        let ctx := set_oursecret ctx secret in
        (* ctx->rx += count;  ret = count *)
        let ctx := set_rx ctx (to_int (rx ctx + count)) in
        mk_outcome (to_int count) ctx ubuf cs
    end.

(** The string literal ["initmsg"] as it lies in memory. *)
Definition initmsg : list byte := String.list_byte_of_string "initmsg"%string.

(** [devm_kzalloc(dev, sizeof(struct drv_ctx), GFP_KERNEL)] *)
Definition zeroed_ctx : drv_ctx :=
  mk_drv_ctx 0 0 0 0 0 0 0 (replicate (Z.to_nat MAXBYTES) NUL).

(** [miscdrv_init()]: [registered] is the value [misc_register] returns and
    [kzalloc_ok] tells whether [devm_kzalloc] succeeds. The result is the
    return value and the context [ctx] points to ([None] when unset). *)
Definition miscdrv_init (registered : Z) (kzalloc_ok : bool)
  : Z * option drv_ctx :=
  if negb (registered =? 0) then (registered, None)
  else if negb kzalloc_ok then (- ENOMEM, None)
  else
    let '(secret, _) := strlcpy (oursecret zeroed_ctx) (initmsg ++ [NUL]) 8 in
    (0, Some (set_oursecret zeroed_ctx secret)).

(** ** The loaded module: [ga], [gb] and [*ctx] *)

Record driver : Type := mk_driver {
  ga : Z;
  gb : Z;
  ctx : drv_ctx
}.

(** [open_miscdrv_rdwr]: [ga++; gb--; return 0;] *)
Definition open_miscdrv_rdwr (d : driver) : Z * driver :=
  (0, mk_driver (to_int (ga d + 1)) (to_int (gb d - 1)) (ctx d)).

(** [close_miscdrv_rdwr]: [ga--; gb++; return 0;] *)
Definition close_miscdrv_rdwr (d : driver) : Z * driver :=
  (0, mk_driver (to_int (ga d - 1)) (to_int (gb d + 1)) (ctx d)).

(** A call through [llkd_misc_fops]. *)
Inductive fop : Type :=
  | Open
  | Read (ubuf : list byte) (count : Z)
  | Write (heap : option (list byte)) (ubuf : list byte) (count : Z)
  | Release.

Definition fop_ok (op : fop) : Prop :=
  match op with
  | Read _ count | Write _ _ count => is_size_t count
  | Open | Release => True
  end.

Definition dispatch (op : fop) (d : driver) : Z * driver :=
  match op with
  | Open => open_miscdrv_rdwr d
  | Release => close_miscdrv_rdwr d
  | Read ubuf count =>
      let r := read_miscdrv_rdwr (ctx d) ubuf count in
      (ret r, mk_driver (ga d) (gb d) (ctx_after r))
  | Write heap ubuf count =>
      let r := write_miscdrv_rdwr heap (ctx d) ubuf count in
      (ret r, mk_driver (ga d) (gb d) (ctx_after r))
  end.

(** The module right after a successful [miscdrv_init]:
    [static int ga, gb = 1;] and the fresh context. *)
Definition attached (d : driver) : Prop :=
  ga d = 0 /\ gb d = 1 /\ miscdrv_init 0 true = (0, Some (ctx d)).

(** States the module can be in after a successful attach. *)
Inductive reachable : driver -> Prop :=
  | reach_attach d : attached d -> reachable d
  | reach_step d op : reachable d -> fop_ok op ->
      reachable (snd (dispatch op d)).

(** ** Derived notions used in the statements *)

(** Logical length of the secret, as [read] computes it. *)
Definition secret_len (c : drv_ctx) : Z :=
  Z.of_nat (strnlen (oursecret c) (Z.to_nat MAXBYTES)).

(** The secret as a string: the bytes before the terminator. *)
Definition secret (c : drv_ctx) : list byte :=
  take (Z.to_nat (secret_len c)) (oursecret c).

(** The first [n] bytes of user memory [ubuf] can be accessed. *)
Definition accessible (ubuf : list byte) (n : Z) : Prop :=
  n <= Z.of_nat (length ubuf).

(** The kernel memory [strlcpy] reads from once the copy-in succeeded:
    the caller's [count] bytes, then whatever lies behind the buffer. *)
Definition staged (mem ubuf : list byte) (count : Z) : list byte :=
  take (Z.to_nat count) ubuf ++ drop (Z.to_nat count) mem.

(** Length of the string a write of [count] bytes from [ubuf] stores: the
    caller's bytes up to their first terminator, and at most [count - 1]
    of them, the last place being taken by the terminator. *)
Definition stored_len (ubuf : list byte) (count : Z) : nat :=
  Nat.min (strnlen ubuf (Z.to_nat count)) (Z.to_nat count - 1).

(** The context a successful [miscdrv_init] sets up. *)
Definition attach_ctx : drv_ctx :=
  set_oursecret zeroed_ctx
    (initmsg ++ replicate (Z.to_nat MAXBYTES - length initmsg) NUL).

Definition attach_driver : driver := mk_driver 0 1 attach_ctx.

(** The invariant of the context: a well-formed [struct drv_ctx] whose
    secret has its terminator inside the array. *)
Definition ctx_inv (c : drv_ctx) : Prop :=
  wf_ctx c /\ secret_len c < MAXBYTES.

(** Sample data for the concrete instances. *)
Definition hello : list byte := String.list_byte_of_string "hello"%string.
Definition user_page : list byte := replicate 128 xff.
Definition slab_junk : list byte := replicate 256 xaa.

(** One more [read(fd, buf, MAXBYTES)] into a writable page. *)
Definition read_again (d : driver) : driver :=
  snd (dispatch (Read user_page MAXBYTES) d).


(** ** Calls that do not return *)

(** [strlen] reads one byte after the other until it meets a NUL. On
    memory [s] that holds none the scan runs off the last readable byte and
    the kernel oopses: [strlen s] is what the call returns when it returns,
    that is, when [strlen_returns s]. *)
Definition strlen_returns (s : list byte) : bool :=
  (strlen s <? length s)%nat.

(** include/linux/slab.h [ZERO_SIZE_PTR], what [kvmalloc] returns for a
    size of 0: it is not NULL, and no byte can be read there. *)
Definition ZERO_SIZE_PTR : option (list byte) := Some [].

(** Whether [write_miscdrv_rdwr] returns to its caller. It does unless it
    gets as far as [strlcpy]: [strlen] then scans the staging buffer and the
    memory behind it, before anything is stored in the secret. *)
Definition write_returns (heap : option (list byte)) (ubuf : list byte)
    (count : Z) : bool :=
  if count >? MAXBYTES then true
  else
    match kvmalloc heap count with
    | None => true
    | Some kbuf =>
      let kbuf := memset kbuf NUL (Z.to_nat count) in
      let '(kbuf, notcopied) := copy_from_user kbuf ubuf count in
      if negb (notcopied =? 0) then true else strlen_returns kbuf
    end.

(** More sample data: ["hello"] with its terminator, and two pieces of
    slab memory that hold a NUL some way behind a small object. *)
Definition hello_nul : list byte := hello ++ [NUL].
Definition slab_chunk : list byte := replicate 8 xaa ++ replicate 8 NUL.
Definition slab_chunk2 : list byte := replicate 16 x55 ++ [NUL].

(** One more [write(fd, "hello", 6)], terminator included. *)
Definition write_again (d : driver) : driver :=
  snd (dispatch (Write (Some slab_chunk) hello_nul 6) d).

(** ** Sequences of calls *)

(** The calls [ops] made one after the other on the module [d]: the values
    they return, in order, and the module they leave. *)
Fixpoint run (ops : list fop) (d : driver) : list Z * driver :=
  match ops with
  | [] => ([], d)
  | op :: ops' =>
      let '(r, d1) := dispatch op d in
      let '(rs, d2) := run ops' d1 in
      (r :: rs, d2)
  end.

(** Total of the byte counts returned by the reads among [ops], [rets]
    being the values the calls returned. *)
Fixpoint bytes_read (ops : list fop) (rets : list Z) : Z :=
  match ops, rets with
  | Read _ _ :: ops', r :: rets' =>
      (if 0 <? r then r else 0) + bytes_read ops' rets'
  | _ :: ops', _ :: rets' => bytes_read ops' rets'
  | _, _ => 0
  end.

(** Total of the byte counts returned by the writes among [ops] that asked
    for at most [MAXBYTES] bytes. *)
Fixpoint bytes_written (ops : list fop) (rets : list Z) : Z :=
  match ops, rets with
  | Write _ _ count :: ops', r :: rets' =>
      (if (0 <=? r) && (count <=? MAXBYTES) then r else 0)
      + bytes_written ops' rets'
  | _ :: ops', _ :: rets' => bytes_written ops' rets'
  | _, _ => 0
  end.

(** Opens minus closes among [ops]. *)
Fixpoint net_opens (ops : list fop) : Z :=
  match ops with
  | [] => 0
  | Open :: ops' => 1 + net_opens ops'
  | Release :: ops' => net_opens ops' - 1
  | _ :: ops' => net_opens ops'
  end.

(** * Properties *)

(** ** C integers *)

Section Ints.

Lemma to_int_id z : in_int z -> to_int z = z.
Proof.
  unfold in_int, INT_MIN, INT_MAX, to_int. intros Hz.
  rewrite Z.mod_small; lia.
Qed.

Lemma to_int_range z : in_int (to_int z).
Proof.
  unfold in_int, INT_MIN, INT_MAX, to_int.
  pose proof (Z.mod_pos_bound (z + 2 ^ 31) (2 ^ 32)). lia.
Qed.

Lemma to_int_add_l a b : to_int (to_int a + b) = to_int (a + b).
Proof.
  unfold to_int. f_equal.
  replace ((a + 2 ^ 31) mod 2 ^ 32 - 2 ^ 31 + b + 2 ^ 31)
    with ((a + 2 ^ 31) mod 2 ^ 32 + b) by lia.
  rewrite Zplus_mod_idemp_l. f_equal. lia.
Qed.

End Ints.

(** ** The string helpers *)

Section Strings.

Implicit Types (s p r dest src : list byte) (n i : nat).

Lemma is_nul_true c : is_nul c = true <-> c = NUL.
Proof.
  unfold is_nul. split.
  - apply Byte.byte_dec_bl.
  - apply Byte.byte_dec_lb.
Qed.

Lemma is_nul_false c : is_nul c = false <-> c <> NUL.
Proof.
  rewrite <- is_nul_true. destruct (is_nul c); split; congruence.
Qed.

Lemma strnlen_le_count s n : (strnlen s n <= n)%nat.
Proof.
  revert s. induction n as [|n IH]; intros [|c s]; simpl; try lia.
  destruct (is_nul c); [lia|]. specialize (IH s). lia.
Qed.

Lemma strnlen_le_length s n : (strnlen s n <= length s)%nat.
Proof.
  revert s. induction n as [|n IH]; intros [|c s]; simpl; try lia.
  destruct (is_nul c); [lia|]. specialize (IH s). lia.
Qed.

(** The scan stops on a terminator unless it runs out of [count] or of
    memory. *)
Lemma strnlen_stops s n :
  (strnlen s n < n)%nat -> (strnlen s n < length s)%nat ->
  s !! strnlen s n = Some NUL.
Proof.
  revert s. induction n as [|n IH]; intros [|c s]; simpl; try lia.
  destruct (is_nul c) eqn:Hc.
  - intros _ _. apply is_nul_true in Hc. by subst.
  - intros Hn Hl. simpl. apply IH; lia.
Qed.

(** Nothing before the position returned is a terminator. *)
Lemma strnlen_before s n i c :
  (i < strnlen s n)%nat -> s !! i = Some c -> c <> NUL.
Proof.
  revert s i. induction n as [|n IH]; intros [|c' s] i; simpl; try lia.
  destruct (is_nul c') eqn:Hc; [lia|].
  destruct i as [|i]; simpl.
  - intros _ [= ->]. by apply is_nul_false.
  - intros Hi. apply IH. lia.
Qed.

(** A scan that ends inside [p] does not see what follows [p]; one that
    crosses all of [p] goes on behind it. *)
Lemma strnlen_app p r n :
  strnlen (p ++ r) n =
    if decide (strnlen p n < length p)%nat then strnlen p n
    else (length p + strnlen r (n - length p))%nat.
Proof.
  revert n. induction p as [|c p IH]; intros n.
  - simpl. destruct n; simpl; rewrite ?Nat.sub_0_r; done.
  - destruct n as [|n]; simpl.
    + repeat case_decide; first [done | lia].
    + destruct (is_nul c) eqn:Hc.
      * repeat case_decide; first [done | lia].
      * rewrite IH. repeat case_decide; lia.
Qed.

Lemma strnlen_take s n : strnlen (take n s) n = strnlen s n.
Proof.
  revert s. induction n as [|n IH]; intros [|c s]; simpl; try done.
  by rewrite IH.
Qed.

(** Scanning a terminator-free prefix of length [k] followed by a
    terminator yields [k]. *)
Lemma strnlen_terminated p r n :
  Forall (λ c, c <> NUL) p -> (length p < n)%nat ->
  strnlen (p ++ NUL :: r) n = length p.
Proof.
  intros Hp. revert n. induction Hp as [|c p Hc Hp IH]; intros n Hn.
  - destruct n; [simpl in Hn; lia|]. done.
  - destruct n as [|n]; simpl in *; [lia|].
    apply is_nul_false in Hc. rewrite Hc. f_equal. apply IH. lia.
Qed.

Lemma strnlen_prefix_nul_free s n :
  Forall (λ c, c <> NUL) (take (strnlen s n) s).
Proof.
  apply Forall_lookup. intros i c Hi.
  assert (i < strnlen s n)%nat as Hlt.
  { apply lookup_lt_Some in Hi. rewrite length_take in Hi. lia. }
  rewrite lookup_take_lt in Hi by done.
  by eapply strnlen_before.
Qed.

Lemma memcpy_length dest src n :
  (n <= length src)%nat -> (n <= length dest)%nat ->
  length (memcpy dest src n) = length dest.
Proof.
  intros Hs Hd. unfold memcpy.
  rewrite length_app, length_take, length_drop. lia.
Qed.

(** The bytes [memcpy] then [dest[len] = 0] leave in [dest]. *)
Lemma terminate_memcpy dest src len :
  (len <= length src)%nat -> (len < length dest)%nat ->
  <[len := NUL]> (memcpy dest src len)
    = take len src ++ NUL :: drop (S len) dest.
Proof.
  intros Hs Hd. unfold memcpy.
  assert (length (take len src) = len) as Hl by (rewrite length_take; lia).
  rewrite insert_app_r_alt by lia. rewrite Hl, Nat.sub_diag.
  f_equal. destruct (drop len dest) as [|c t] eqn:Hdrop.
  - apply (f_equal length) in Hdrop. rewrite length_drop in Hdrop.
    simpl in Hdrop. lia.
  - simpl. f_equal.
    replace (S len) with (len + 1)%nat by lia.
    rewrite <- drop_drop, Hdrop. done.
Qed.

End Strings.

Section Strlcpy.

Implicit Types (s dest src : list byte) (size : Z).

Lemma strnlen_ge_length s n : (length s <= n)%nat -> strnlen s n = strlen s.
Proof.
  unfold strlen. revert n.
  induction s as [|c s IH]; intros [|n]; simpl; try lia; try done.
  intros Hn. destruct (is_nul c); [done|]. f_equal. apply IH. lia.
Qed.

Lemma strlen_le_length s : (strlen s <= length s)%nat.
Proof. apply strnlen_le_length. Qed.

Lemma strlen_app p r :
  strlen (p ++ r) =
    if decide (strlen p < length p)%nat then strlen p
    else (length p + strlen r)%nat.
Proof.
  unfold strlen at 1. rewrite strnlen_app, length_app.
  rewrite (strnlen_ge_length p) by lia.
  replace (length p + length r - length p)%nat with (length r) by lia.
  done.
Qed.

Lemma strlcpy_zero dest src : fst (strlcpy dest src 0) = dest.
Proof. done. Qed.

Lemma strlcpy_fst dest src size :
  0 < size <= Z.of_nat (length dest) ->
  fst (strlcpy dest src size)
    = take (copied_len src size) src
        ++ NUL :: drop (S (copied_len src size)) dest.
Proof.
  intros Hsize. unfold strlcpy, copied_len.
  destruct (Z.eqb_spec size 0) as [|_]; [lia|]. cbn [fst].
  pose proof (strlen_le_length src) as Hsrc.
  set (len := Z.to_nat _). set (len' := Nat.min _ _).
  assert (len = len') as ->.
  { subst len len'. destruct (Z.geb_spec (Z.of_nat (strlen src)) size); lia. }
  apply terminate_memcpy; subst len'; lia.
Qed.

Lemma strlcpy_length dest src size :
  size <= Z.of_nat (length dest) ->
  length (fst (strlcpy dest src size)) = length dest.
Proof.
  intros Hsize. unfold strlcpy.
  destruct (Z.eqb_spec size 0) as [|Hnz]; [done|]. cbn [fst].
  rewrite length_insert.
  pose proof (strlen_le_length src).
  apply memcpy_length; destruct (Z.geb_spec (Z.of_nat (strlen src)) size); lia.
Qed.

Lemma take_strlen_nul_free src k :
  (k <= strlen src)%nat -> Forall (λ c, c <> NUL) (take k src).
Proof.
  intros Hk. rewrite <- (Nat.min_l _ _ Hk), <- take_take.
  apply Forall_take, strnlen_prefix_nul_free.
Qed.

(** After [strlcpy] the destination holds a string of [copied_len]
    characters. *)
Lemma strlcpy_strnlen dest src size n :
  0 < size <= Z.of_nat (length dest) -> size <= Z.of_nat n ->
  strnlen (fst (strlcpy dest src size)) n = copied_len src size.
Proof.
  intros Hsize Hn. rewrite strlcpy_fst by done.
  pose proof (strlen_le_length src) as Hsrc.
  assert (length (take (copied_len src size) src) = copied_len src size)
    as Hlen by (rewrite length_take; unfold copied_len; lia).
  rewrite strnlen_terminated.
  - done.
  - apply take_strlen_nul_free. unfold copied_len. lia.
  - rewrite Hlen. unfold copied_len. lia.
Qed.

Lemma strlcpy_take dest src size :
  0 < size <= Z.of_nat (length dest) ->
  take (copied_len src size) (fst (strlcpy dest src size))
    = take (copied_len src size) src.
Proof.
  intros Hsize. rewrite strlcpy_fst by done.
  pose proof (strlen_le_length src) as Hsrc.
  rewrite take_app_le by (rewrite length_take; unfold copied_len; lia).
  rewrite take_take. f_equal. lia.
Qed.

End Strlcpy.

(** ** The file operations, path by path *)

Section Paths.

Implicit Types (c : drv_ctx) (ubuf mem : list byte) (count : Z).

Lemma secret_len_range c : 0 <= secret_len c <= MAXBYTES.
Proof.
  unfold secret_len, MAXBYTES.
  pose proof (strnlen_le_count (oursecret c) (Z.to_nat 128)). lia.
Qed.

Lemma secret_len_int c : to_int (secret_len c) = secret_len c.
Proof.
  apply to_int_id. pose proof (secret_len_range c).
  unfold in_int, INT_MIN, INT_MAX, MAXBYTES in *. lia.
Qed.

Lemma copy_to_user_notcopied to from n :
  snd (copy_to_user to from n) = 0 <-> accessible to n.
Proof. unfold copy_to_user, accessible. simpl. lia. Qed.

Lemma copy_from_user_notcopied to from n :
  snd (copy_from_user to from n) = 0 <-> accessible from n.
Proof. unfold copy_from_user, accessible. simpl. lia. Qed.

Lemma read_short c ubuf count :
  count < MAXBYTES ->
  read_miscdrv_rdwr c ubuf count = mk_outcome (- EINVAL) c ubuf [].
Proof.
  intros Hc. unfold read_miscdrv_rdwr.
  destruct (Z.ltb_spec count MAXBYTES); [done|lia].
Qed.

Lemma read_empty c ubuf count :
  secret_len c = 0 ->
  read_miscdrv_rdwr c ubuf count = mk_outcome (- EINVAL) c ubuf [].
Proof.
  intros He. unfold read_miscdrv_rdwr. fold (secret_len c).
  rewrite secret_len_int, He.
  destruct (count <? MAXBYTES); done.
Qed.

Lemma read_ok c ubuf count :
  MAXBYTES <= count -> 0 < secret_len c -> accessible ubuf (secret_len c) ->
  read_miscdrv_rdwr c ubuf count
    = mk_outcome (secret_len c)
                 (set_tx c (to_int (tx c + secret_len c)))
                 (memcpy ubuf (oursecret c) (Z.to_nat (secret_len c)))
                 [CopyToUser (secret_len c) 0].
Proof.
  intros Hc Hs Ha. unfold read_miscdrv_rdwr. fold (secret_len c).
  rewrite secret_len_int.
  destruct (Z.ltb_spec count MAXBYTES); [lia|].
  destruct (Z.leb_spec (secret_len c) 0); [lia|].
  unfold copy_to_user, accessible in *.
  rewrite Z.min_l by lia. rewrite Z.sub_diag. done.
Qed.

Lemma read_fault c ubuf count :
  MAXBYTES <= count -> 0 < secret_len c -> ~ accessible ubuf (secret_len c) ->
  read_miscdrv_rdwr c ubuf count
    = mk_outcome (- EFAULT) c
                 (memcpy ubuf (oursecret c) (length ubuf))
                 [CopyToUser (secret_len c)
                             (secret_len c - Z.of_nat (length ubuf))].
Proof.
  intros Hc Hs Ha. unfold read_miscdrv_rdwr. fold (secret_len c).
  rewrite secret_len_int.
  destruct (Z.ltb_spec count MAXBYTES); [lia|].
  destruct (Z.leb_spec (secret_len c) 0); [lia|].
  unfold copy_to_user, accessible in *.
  rewrite Z.min_r by lia. rewrite Nat2Z.id.
  destruct (Z.eqb_spec (secret_len c - Z.of_nat (length ubuf)) 0); [lia|].
  done.
Qed.

(** The bytes a successful read leaves in the caller's buffer. *)
Lemma take_memcpy_secret c ubuf :
  take (Z.to_nat (secret_len c))
       (memcpy ubuf (oursecret c) (Z.to_nat (secret_len c)))
    = secret c.
Proof.
  unfold memcpy, secret.
  pose proof (strnlen_le_length (oursecret c) (Z.to_nat MAXBYTES)) as Hl.
  rewrite take_app_length'; [done|].
  rewrite length_take. unfold secret_len. lia.
Qed.

Lemma write_oversize heap c ubuf count :
  MAXBYTES < count ->
  write_miscdrv_rdwr heap c ubuf count = mk_outcome (to_int count) c ubuf [].
Proof.
  intros Hc. unfold write_miscdrv_rdwr.
  destruct (Z.gtb_spec count MAXBYTES); [done|lia].
Qed.

Lemma write_nomem c ubuf count :
  count <= MAXBYTES ->
  write_miscdrv_rdwr None c ubuf count
    = mk_outcome (- ENOMEM) c ubuf [Kvmalloc count false].
Proof.
  intros Hc. unfold write_miscdrv_rdwr.
  destruct (Z.gtb_spec count MAXBYTES); [lia|done].
Qed.

Lemma write_fault mem c ubuf count :
  count <= MAXBYTES -> ~ accessible ubuf count ->
  write_miscdrv_rdwr (Some mem) c ubuf count
    = mk_outcome (- EFAULT) c ubuf
        [Kvmalloc count true;
         CopyFromUser count (count - Z.of_nat (length ubuf));
         Kvfree].
Proof.
  intros Hc Ha. unfold write_miscdrv_rdwr, accessible in *.
  destruct (Z.gtb_spec count MAXBYTES); [lia|].
  unfold kvmalloc, copy_from_user.
  rewrite Z.min_r by lia.
  destruct (Z.eqb_spec (count - Z.of_nat (length ubuf)) 0); [lia|done].
Qed.

Lemma write_ok mem c ubuf count :
  0 <= count <= MAXBYTES -> accessible ubuf count ->
  write_miscdrv_rdwr (Some mem) c ubuf count
    = mk_outcome count
        (set_rx (set_oursecret c
                   (fst (strlcpy (oursecret c) (staged mem ubuf count) count)))
                (to_int (rx c + count)))
        ubuf
        [Kvmalloc count true; CopyFromUser count 0; Kvfree].
Proof.
  intros Hc Ha. unfold write_miscdrv_rdwr, accessible in *.
  destruct (Z.gtb_spec count MAXBYTES); [lia|].
  unfold kvmalloc, copy_from_user, memset.
  rewrite Z.min_l by lia. rewrite Z.sub_diag. cbn [Z.eqb negb Z.to_nat].
  rewrite drop_app_length' by (by rewrite length_replicate).
  cbn [replicate app]. fold (staged mem ubuf count).
  destruct (strlcpy _ _ _) as [s z] eqn:Hs. cbn [fst].
  rewrite to_int_id by (unfold in_int, INT_MIN, INT_MAX, MAXBYTES in *; lia).
  done.
Qed.

End Paths.

(** ** What a write commits, and the invariant *)

Section Commit.

Implicit Types (c : drv_ctx) (ubuf mem : list byte) (count : Z).

Lemma copied_len_staged mem ubuf count :
  0 <= count -> accessible ubuf count ->
  copied_len (staged mem ubuf count) count = stored_len ubuf count.
Proof.
  intros Hc Ha. unfold copied_len, stored_len, staged, accessible in *.
  assert (length (take (Z.to_nat count) ubuf) = Z.to_nat count) as Hl
    by (rewrite length_take; lia).
  pose proof (strnlen_le_count ubuf (Z.to_nat count)) as Hle.
  assert (strlen (take (Z.to_nat count) ubuf) = strnlen ubuf (Z.to_nat count))
    as Hp by (unfold strlen; by rewrite Hl, strnlen_take).
  rewrite strlen_app, Hp, Hl. case_decide; lia.
Qed.

Lemma write_secret_len mem c ubuf count :
  length (oursecret c) = Z.to_nat MAXBYTES ->
  0 < count <= MAXBYTES -> accessible ubuf count ->
  secret_len (ctx_after (write_miscdrv_rdwr (Some mem) c ubuf count))
    = Z.of_nat (stored_len ubuf count).
Proof.
  intros Hl Hc Ha. rewrite write_ok by (done || lia).
  unfold secret_len. cbn [ctx_after set_rx set_oursecret oursecret].
  rewrite strlcpy_strnlen by (unfold MAXBYTES in *; lia).
  by rewrite copied_len_staged by (done || lia).
Qed.

Lemma write_secret mem c ubuf count :
  length (oursecret c) = Z.to_nat MAXBYTES ->
  0 < count <= MAXBYTES -> accessible ubuf count ->
  secret (ctx_after (write_miscdrv_rdwr (Some mem) c ubuf count))
    = take (stored_len ubuf count) ubuf.
Proof.
  intros Hl Hc Ha. unfold secret.
  rewrite write_secret_len by done. rewrite Nat2Z.id.
  rewrite write_ok by (done || lia).
  cbn [ctx_after set_rx set_oursecret oursecret].
  rewrite <- (copied_len_staged mem) by (done || lia).
  rewrite strlcpy_take by (unfold MAXBYTES in *; lia).
  rewrite (copied_len_staged mem) by (done || lia).
  unfold staged, stored_len, accessible in *.
  rewrite take_app_le by (rewrite length_take; lia).
  rewrite take_take. f_equal. lia.
Qed.

Lemma miscdrv_init_ok : miscdrv_init 0 true = (0, Some attach_ctx).
Proof. reflexivity. Qed.

Lemma miscdrv_init_ret registered kzalloc_ok :
  fst (miscdrv_init registered kzalloc_ok) = 0 ->
  miscdrv_init registered kzalloc_ok = (0, Some attach_ctx).
Proof.
  unfold miscdrv_init.
  destruct (Z.eqb_spec registered 0) as [->|Hr]; cbn [negb fst].
  - destruct kzalloc_ok; cbn [negb fst]; [intros _; reflexivity|].
    unfold ENOMEM. lia.
  - done.
Qed.

Lemma attached_ctx d : attached d -> ctx d = attach_ctx.
Proof. intros (_ & _ & H). rewrite miscdrv_init_ok in H. congruence. Qed.

Lemma attach_secret_len : secret_len attach_ctx = 7.
Proof. reflexivity. Qed.

Lemma attach_inv : ctx_inv attach_ctx.
Proof.
  split; [|rewrite attach_secret_len; unfold MAXBYTES; lia].
  repeat split; vm_compute; congruence.
Qed.

(** A read changes [tx] at most. *)
Lemma read_ctx_after c ubuf count :
  let r := read_miscdrv_rdwr c ubuf count in
  ctx_after r = c \/
  (0 <= ret r /\ ret r = secret_len c /\
   ctx_after r = set_tx c (to_int (tx c + secret_len c))).
Proof.
  destruct (Z.lt_ge_cases count MAXBYTES) as [Hc|Hc].
  { left. by rewrite read_short. }
  pose proof (secret_len_range c) as Hr.
  destruct (Z.eq_dec (secret_len c) 0) as [He|He].
  { left. by rewrite read_empty. }
  destruct (Z.le_gt_cases (secret_len c) (Z.of_nat (length ubuf))) as [Ha|Ha].
  - right. rewrite read_ok by (done || lia). cbn. repeat split. lia.
  - left. rewrite read_fault by (unfold accessible; lia). done.
Qed.

(** A write either leaves the context alone and reports no byte count
    within [0 .. MAXBYTES], or commits. *)
Lemma write_ctx_after heap c ubuf count :
  0 <= count ->
  let r := write_miscdrv_rdwr heap c ubuf count in
  (ctx_after r = c /\ (ret r < 0 \/ MAXBYTES < count)) \/
  (count <= MAXBYTES /\ accessible ubuf count /\ ret r = count /\
   exists mem, heap = Some mem /\
     ctx_after r
       = set_rx (set_oursecret c
                   (fst (strlcpy (oursecret c) (staged mem ubuf count) count)))
                (to_int (rx c + count))).
Proof.
  intros H0.
  destruct (Z.lt_ge_cases MAXBYTES count) as [Hc|Hc].
  { left. rewrite write_oversize by done. cbn. auto. }
  destruct heap as [mem|].
  2:{ left. rewrite write_nomem by done. cbn. unfold ENOMEM. split; [done|lia]. }
  destruct (Z.le_gt_cases count (Z.of_nat (length ubuf))) as [Ha|Ha].
  - right. rewrite write_ok by (done || lia). cbn. eauto 10.
  - left. rewrite write_fault by (unfold accessible; lia).
    cbn. unfold EFAULT. split; [done|lia].
Qed.

Lemma read_preserves_inv c ubuf count :
  ctx_inv c -> ctx_inv (ctx_after (read_miscdrv_rdwr c ubuf count)).
Proof.
  intros Hinv. destruct (read_ctx_after c ubuf count) as [->|(_ & _ & ->)].
  - done.
  - destruct Hinv as ((Hl & Ht & Hr) & Hs).
    split; [split; [done | split; [apply to_int_range | done]] | done].
Qed.

Lemma write_preserves_inv heap c ubuf count :
  0 <= count ->
  ctx_inv c -> ctx_inv (ctx_after (write_miscdrv_rdwr heap c ubuf count)).
Proof.
  intros H0 Hinv.
  destruct (write_ctx_after heap c ubuf count H0)
    as [[-> _]|(Hc & Ha & _ & mem & _ & ->)]; [done|].
  destruct Hinv as ((Hl & Ht & Hr) & Hs).
  unfold ctx_inv, wf_ctx, secret_len in *.
  cbn [set_rx set_oursecret oursecret tx rx].
  pose proof (to_int_range (rx c + count)) as Hrx.
  destruct (Z.eq_dec count 0) as [->|Hnz].
  - rewrite strlcpy_zero. tauto.
  - rewrite strlcpy_length by (unfold MAXBYTES in *; lia).
    rewrite strlcpy_strnlen by (unfold MAXBYTES in *; lia).
    split; [tauto|]. unfold copied_len, MAXBYTES in *. lia.
Qed.

Lemma reachable_inv d : reachable d -> ctx_inv (ctx d).
Proof.
  induction 1 as [d Ha|d op Hd IH Hop].
  - rewrite (attached_ctx d Ha). apply attach_inv.
  - destruct op as [|ubuf count|heap ubuf count|]; cbn; try done.
    + by apply read_preserves_inv.
    + apply write_preserves_inv; [|done]. destruct Hop. done.
Qed.

Lemma attach_reachable : reachable attach_driver.
Proof. apply reach_attach. repeat split. Qed.

End Commit.

(** ** Long runs, and writes that return *)

Section Runs.

(** [n] such reads in a row after attach: each returns ["initmsg"], so
    [tx] holds [7 * n] as an [int]. *)
Lemma reads_after_attach n :
  let d := N.iter n read_again attach_driver in
  reachable d /\
  oursecret (ctx d) = oursecret attach_ctx /\
  tx (ctx d) = to_int (7 * Z.of_N n).
Proof.
  induction n as [|n IH] using N.peano_ind.
  - split; [apply attach_reachable|done].
  - rewrite N.iter_succ. destruct IH as (Hr & Hs & Ht).
    set (d := N.iter n read_again attach_driver) in *.
    assert (secret_len (ctx d) = 7) as Hlen
      by (unfold secret_len; by rewrite Hs).
    cbn zeta. unfold read_again. split; [|split].
    + apply reach_step; [done|]. vm_compute. split; congruence.
    + cbn [dispatch snd ctx]. rewrite read_ok; [done|done|lia|].
      rewrite Hlen. vm_compute. congruence.
    + cbn [dispatch snd ctx]. rewrite read_ok; [|done|lia|].
      * cbn [ctx_after set_tx tx]. rewrite Hlen, Ht, to_int_add_l.
        f_equal. lia.
      * rewrite Hlen. vm_compute. congruence.
Qed.

(** [n] writes of ["hello"] and its terminator in a row after attach: each
    returns 6, so [rx] holds [6 * n] as an [int]. *)
Lemma writes_after_attach n :
  let d := N.iter n write_again attach_driver in
  reachable d /\ rx (ctx d) = to_int (6 * Z.of_N n).
Proof.
  induction n as [|n IH] using N.peano_ind.
  - split; [apply attach_reachable|done].
  - rewrite N.iter_succ. destruct IH as (Hr & Hrx).
    set (d := N.iter n write_again attach_driver) in *.
    cbn zeta. unfold write_again. split.
    + apply reach_step; [done|]. vm_compute. split; congruence.
    + cbn [dispatch snd ctx]. rewrite write_ok.
      * cbn [ctx_after set_rx set_oursecret rx].
        rewrite Hrx, to_int_add_l. f_equal. lia.
      * vm_compute. split; congruence.
      * vm_compute. congruence.
Qed.

Lemma strnlen_nul_free (p : list byte) (n : nat) :
  Forall (λ b, b <> NUL) p -> strnlen p n = Nat.min (length p) n.
Proof.
  intros Hp. revert n. induction Hp as [|b p Hb Hp IH]; intros [|n]; simpl;
    try done.
  apply is_nul_false in Hb. by rewrite Hb, IH.
Qed.

(** What is stored of a payload does not depend on the user memory that
    follows it. *)
Lemma stored_len_app (P rest : list byte) :
  stored_len (P ++ rest) (Z.of_nat (length P))
    = stored_len P (Z.of_nat (length P)).
Proof.
  unfold stored_len. rewrite Nat2Z.id. f_equal.
  rewrite <- (strnlen_take (P ++ rest)). by rewrite take_app_length.
Qed.

(** On the path that reaches [strlcpy], a write returns exactly when
    [strlen] finds a NUL in the staged bytes or behind them. *)
Lemma write_returns_ok mem ubuf count :
  0 <= count <= MAXBYTES -> accessible ubuf count ->
  write_returns (Some mem) ubuf count
    = strlen_returns (staged mem ubuf count).
Proof.
  intros Hc Ha. unfold write_returns, accessible in *.
  destruct (Z.gtb_spec count MAXBYTES); [lia|].
  unfold kvmalloc, copy_from_user, memset.
  rewrite Z.min_l by lia. rewrite Z.sub_diag. cbn [Z.eqb negb Z.to_nat].
  rewrite drop_app_length' by (by rewrite length_replicate).
  done.
Qed.

End Runs.

(** * Properties of the specification *)

(** C1. A write with [count > MAXBYTES] (and [count] an [int] value)
    allocates nothing, copies nothing and leaves the context, hence the
    secret, [tx] and [rx], as they were; but it does not fail with
    [-EINVAL]: [ret] still holds its initial value [count] when the
    function jumps to [out_nomem], so the caller is told that [count]
    bytes were written. *)
Theorem write_oversize_returns_count heap c ubuf count :
  MAXBYTES < count <= INT_MAX ->
  let r := write_miscdrv_rdwr heap c ubuf count in
  ret r = count /\ ret r <> - EINVAL /\
  ctx_after r = c /\ ubuf_after r = ubuf /\ calls r = [].
Proof.
  intros [Hlo Hhi] r. subst r. rewrite write_oversize by done.
  cbn [ret ctx_after ubuf_after calls].
  rewrite to_int_id
    by (unfold in_int, INT_MIN, INT_MAX, MAXBYTES in *; lia).
  unfold EINVAL, MAXBYTES in *. repeat split; lia.
Qed.

Lemma write_oversize_returns_count_witness :
  MAXBYTES < 200 <= INT_MAX /\
  let r := write_miscdrv_rdwr (Some slab_junk) attach_ctx user_page 200 in
  ret r = 200 /\ ret r <> - EINVAL /\
  ctx_after r = attach_ctx /\ ubuf_after r = user_page /\ calls r = [].
Proof.
  assert (MAXBYTES < 200 <= INT_MAX) as H by (vm_compute; split; congruence).
  split; [exact H|].
  exact (write_oversize_returns_count
           (Some slab_junk) attach_ctx user_page 200 H).
Defined.

(** C4, as stated, fails: [tx] is an [int]. After 306783378 successful
    reads of ["initmsg"] it holds 2147483646, and one more successful read,
    which returns 7, leaves it at -2147483643, not 7 higher. *)
Lemma tx_increment_wraps_after_many_reads :
  exists d ubuf count,
    reachable d /\ MAXBYTES <= count /\ 0 < secret_len (ctx d) /\
    snd (copy_to_user ubuf (oursecret (ctx d)) (secret_len (ctx d))) = 0 /\
    let r := read_miscdrv_rdwr (ctx d) ubuf count in
    ret r = secret_len (ctx d) /\
    tx (ctx d) = 2147483646 /\ tx (ctx_after r) = -2147483643 /\
    tx (ctx_after r) <> tx (ctx d) + secret_len (ctx d).
Proof.
  destruct (reads_after_attach 306783378) as (Hr & Hs & Ht).
  remember (N.iter 306783378 read_again attach_driver) as d eqn:Hd.
  clear Hd.
  assert (secret_len (ctx d) = 7) as Hlen
    by (unfold secret_len; by rewrite Hs).
  assert (tx (ctx d) = 2147483646) as Htx by (rewrite Ht; reflexivity).
  assert (accessible user_page (secret_len (ctx d))) as Hacc
    by (rewrite Hlen; vm_compute; congruence).
  exists d, user_page, MAXBYTES.
  split; [done|]. split; [lia|]. split; [lia|].
  split; [by apply copy_to_user_notcopied|].
  rewrite read_ok by (done || lia).
  cbn [ret ctx_after set_tx tx]. rewrite Hlen, Htx.
  split; [done|]. split; [done|]. split; [reflexivity|].
  vm_compute. congruence.
Qed.

(** C4, amended. A read with [count >= MAXBYTES] of a non-empty secret
    whose [copy_to_user] succeeds returns [secret_len], delivers the stored
    secret in the first [secret_len] bytes of the caller's buffer and, [tx]
    being an [int], increases [tx] by exactly [secret_len] provided
    [tx + secret_len <= INT_MAX]; nothing else in the context changes. *)
Theorem read_delivers_secret_below_int_max c ubuf count :
  in_int (tx c) ->
  MAXBYTES <= count -> 0 < secret_len c ->
  snd (copy_to_user ubuf (oursecret c) (secret_len c)) = 0 ->
  tx c + secret_len c <= INT_MAX ->
  let r := read_miscdrv_rdwr c ubuf count in
  ret r = secret_len c /\
  take (Z.to_nat (ret r)) (ubuf_after r) = secret c /\
  tx (ctx_after r) = tx c + secret_len c /\
  ctx_after r = set_tx c (tx c + secret_len c).
Proof.
  intros Ht Hc Hs Hcopy Hfit r. subst r.
  apply copy_to_user_notcopied in Hcopy.
  rewrite read_ok by done.
  cbn [ret ctx_after ubuf_after set_tx tx].
  rewrite to_int_id by (unfold in_int, INT_MIN, INT_MAX in *; lia).
  split; [done|]. split; [apply take_memcpy_secret|done].
Qed.

Lemma read_delivers_secret_below_int_max_witness :
  (in_int (tx attach_ctx) /\
   MAXBYTES <= 128 /\ 0 < secret_len attach_ctx /\
   snd (copy_to_user user_page (oursecret attach_ctx)
          (secret_len attach_ctx)) = 0 /\
   tx attach_ctx + secret_len attach_ctx <= INT_MAX) /\
  let r := read_miscdrv_rdwr attach_ctx user_page 128 in
  ret r = secret_len attach_ctx /\
  take (Z.to_nat (ret r)) (ubuf_after r) = secret attach_ctx /\
  tx (ctx_after r) = tx attach_ctx + secret_len attach_ctx /\
  ctx_after r = set_tx attach_ctx (tx attach_ctx + secret_len attach_ctx).
Proof.
  assert (in_int (tx attach_ctx)) as H0 by (vm_compute; split; congruence).
  assert (MAXBYTES <= 128) as H1 by (vm_compute; congruence).
  assert (0 < secret_len attach_ctx) as H2 by reflexivity.
  assert (snd (copy_to_user user_page (oursecret attach_ctx)
                 (secret_len attach_ctx)) = 0) as H3 by reflexivity.
  assert (tx attach_ctx + secret_len attach_ctx <= INT_MAX) as H4
    by (vm_compute; congruence).
  split; [exact (conj H0 (conj H1 (conj H2 (conj H3 H4))))|].
  exact (read_delivers_secret_below_int_max
           attach_ctx user_page 128 H0 H1 H2 H3 H4).
Defined.

(** C5. A read with [count < MAXBYTES] returns [-EINVAL]; it calls
    neither [copy_to_user] nor anything else, so the caller's buffer is
    as before, and the context, [tx] included, is unchanged. *)
Theorem read_short_count_rejected c ubuf count :
  count < MAXBYTES ->
  let r := read_miscdrv_rdwr c ubuf count in
  ret r = - EINVAL /\ ubuf_after r = ubuf /\ calls r = [] /\
  ctx_after r = c /\ tx (ctx_after r) = tx c.
Proof.
  intros Hc r. subst r. rewrite read_short by done. done.
Qed.

Lemma read_short_count_rejected_witness :
  127 < MAXBYTES /\
  let r := read_miscdrv_rdwr attach_ctx user_page 127 in
  ret r = - EINVAL /\ ubuf_after r = user_page /\ calls r = [] /\
  ctx_after r = attach_ctx /\ tx (ctx_after r) = tx attach_ctx.
Proof.
  assert (127 < MAXBYTES) as H by reflexivity.
  split; [exact H|].
  exact (read_short_count_rejected attach_ctx user_page 127 H).
Defined.

(** C6. A write with [count <= MAXBYTES] whose staging buffer was
    allocated and whose [copy_from_user] fails returns [-EFAULT], frees the
    staging buffer (the calls made are [kvmalloc], [copy_from_user],
    [kvfree]) and leaves the whole context, so the secret, [tx] and [rx],
    unmodified. *)
Theorem write_copy_fault_atomic mem c ubuf count :
  count <= MAXBYTES ->
  snd (copy_from_user (memset mem NUL (Z.to_nat count)) ubuf count) <> 0 ->
  let r := write_miscdrv_rdwr (Some mem) c ubuf count in
  ret r = - EFAULT /\ ctx_after r = c /\
  (exists k, k <> 0 /\
     calls r = [Kvmalloc count true; CopyFromUser count k; Kvfree]) /\
  live_buffers (calls r) = 0.
Proof.
  intros Hc Hcopy r. subst r.
  rewrite copy_from_user_notcopied in Hcopy.
  rewrite write_fault by done.
  cbn [ret ctx_after calls]. repeat split.
  exists (count - Z.of_nat (length ubuf)). split; [|done].
  unfold accessible in Hcopy. lia.
Qed.

Lemma write_copy_fault_atomic_witness :
  (6 <= MAXBYTES /\
   snd (copy_from_user (memset slab_junk NUL (Z.to_nat 6)) hello 6) <> 0) /\
  let r := write_miscdrv_rdwr (Some slab_junk) attach_ctx hello 6 in
  ret r = - EFAULT /\ ctx_after r = attach_ctx /\
  (exists k, k <> 0 /\
     calls r = [Kvmalloc 6 true; CopyFromUser 6 k; Kvfree]) /\
  live_buffers (calls r) = 0.
Proof.
  assert (6 <= MAXBYTES) as H1 by (vm_compute; congruence).
  assert (snd (copy_from_user (memset slab_junk NUL (Z.to_nat 6)) hello 6)
          <> 0) as H2 by (vm_compute; congruence).
  split; [exact (conj H1 H2)|].
  exact (write_copy_fault_atomic slab_junk attach_ctx hello 6 H1 H2).
Defined.

(** C7, as stated, fails: [rx] is an [int]. After 357913941 successful
    writes of 6 bytes it holds 2147483646, and one more successful write of
    6 bytes, which returns 6, leaves it at -2147483644, not 6 higher. *)
Lemma rx_increment_wraps_after_many_writes :
  exists d heap ubuf count,
    reachable d /\ 0 <= count <= MAXBYTES /\
    write_returns heap ubuf count = true /\
    let r := write_miscdrv_rdwr heap (ctx d) ubuf count in
    0 <= ret r /\ ret r = count /\
    rx (ctx d) = 2147483646 /\ rx (ctx_after r) = -2147483644 /\
    rx (ctx_after r) <> rx (ctx d) + count.
Proof.
  destruct (writes_after_attach 357913941) as (Hr & Hrx).
  remember (N.iter 357913941 write_again attach_driver) as d eqn:Hd.
  clear Hd.
  assert (rx (ctx d) = 2147483646) as Hv by (rewrite Hrx; reflexivity).
  exists d, (Some slab_chunk), hello_nul, 6.
  split; [done|]. split; [vm_compute; split; congruence|].
  split; [reflexivity|].
  rewrite write_ok by (vm_compute; (congruence || (split; congruence))).
  cbn [ret ctx_after set_rx set_oursecret rx]. rewrite Hv.
  split; [lia|]. split; [done|]. split; [done|]. split; [reflexivity|].
  vm_compute. congruence.
Qed.

(** C7, amended. A write of [0 <= count <= MAXBYTES] bytes that succeeds
    (it returns, and not a negative errno) returns [count] and, [rx] being
    an [int], increases [rx] by exactly the requested [count] provided
    [rx + count <= INT_MAX]; not by the length of the string that ends up
    stored, which is smaller than [count] whenever [count > 0]. *)
Theorem write_counts_requested_bytes_below_int_max heap c ubuf count :
  in_int (rx c) ->
  0 <= count <= MAXBYTES ->
  rx c + count <= INT_MAX ->
  write_returns heap ubuf count = true ->
  let r := write_miscdrv_rdwr heap c ubuf count in
  0 <= ret r ->
  ret r = count /\
  rx (ctx_after r) = rx c + count /\
  tx (ctx_after r) = tx c /\
  (0 < count -> length (oursecret c) = Z.to_nat MAXBYTES ->
   secret_len (ctx_after r) < count).
Proof.
  intros Hrx Hc Hfit _ r Hok. subst r.
  destruct (write_ctx_after heap c ubuf count (proj1 Hc))
    as [[_ [Hneg|Hbig]]|(_ & _ & Hret & mem & _ & Hctx)]; [lia|lia|].
  rewrite Hctx. cbn [set_rx set_oursecret rx tx].
  rewrite to_int_id by (unfold in_int, INT_MIN, INT_MAX in *; lia).
  split; [done|]. split; [done|]. split; [done|].
  intros Hpos Hl. unfold secret_len. cbn [set_rx set_oursecret oursecret].
  rewrite strlcpy_strnlen by (unfold MAXBYTES in *; lia).
  unfold copied_len. lia.
Qed.

Lemma write_counts_requested_bytes_below_int_max_witness :
  (in_int (rx attach_ctx) /\ 0 <= 5 <= MAXBYTES /\
   rx attach_ctx + 5 <= INT_MAX /\
   write_returns (Some slab_chunk) hello 5 = true /\
   0 <= ret (write_miscdrv_rdwr (Some slab_chunk) attach_ctx hello 5)) /\
  let r := write_miscdrv_rdwr (Some slab_chunk) attach_ctx hello 5 in
  ret r = 5 /\
  rx (ctx_after r) = rx attach_ctx + 5 /\
  tx (ctx_after r) = tx attach_ctx /\
  (0 < 5 -> length (oursecret attach_ctx) = Z.to_nat MAXBYTES ->
   secret_len (ctx_after r) < 5).
Proof.
  assert (in_int (rx attach_ctx)) as H0 by (vm_compute; split; congruence).
  assert (0 <= 5 <= MAXBYTES) as H1 by (vm_compute; split; congruence).
  assert (rx attach_ctx + 5 <= INT_MAX) as H2 by (vm_compute; congruence).
  assert (write_returns (Some slab_chunk) hello 5 = true) as H3
    by reflexivity.
  assert (0 <= ret (write_miscdrv_rdwr (Some slab_chunk) attach_ctx hello 5))
    as H4 by (vm_compute; congruence).
  split; [exact (conj H0 (conj H1 (conj H2 (conj H3 H4))))|].
  exact (write_counts_requested_bytes_below_int_max
           (Some slab_chunk) attach_ctx hello 5 H0 H1 H2 H3 H4).
Defined.

(** C8. A successful [miscdrv_init] (return value 0) leaves a context
    whose counters and config words are all 0 and whose 128-byte secret is
    the 7 bytes of ["initmsg"], a terminator and zeroes up to the end; a
    first read with [count = 128] into 7 writable bytes returns 7, delivers
    ["initmsg"] and leaves [tx = 7]. *)
Theorem attach_then_first_read registered kzalloc_ok dst :
  fst (miscdrv_init registered kzalloc_ok) = 0 ->
  accessible dst 7 ->
  exists c,
    snd (miscdrv_init registered kzalloc_ok) = Some c /\
    (tx c = 0 /\ rx c = 0 /\ err c = 0 /\ myword c = 0 /\
     config1 c = 0 /\ config2 c = 0 /\ config3 c = 0) /\
    (length initmsg = 7%nat /\
     oursecret c = initmsg ++ NUL :: replicate 120 NUL /\
     length (oursecret c) = 128%nat) /\
    let r := read_miscdrv_rdwr c dst 128 in
    ret r = 7 /\
    take (Z.to_nat (ret r)) (ubuf_after r) = initmsg /\
    tx (ctx_after r) = 7.
Proof.
  intros Hret Hdst. rewrite (miscdrv_init_ret _ _ Hret).
  exists attach_ctx. split; [done|]. split; [done|]. split; [done|].
  intros r. subst r.
  rewrite read_ok by (rewrite ?attach_secret_len; done).
  cbn [ret ctx_after ubuf_after set_tx tx].
  split; [done|]. split; [|done].
  apply take_memcpy_secret.
Qed.

Lemma attach_then_first_read_witness :
  (fst (miscdrv_init 0 true) = 0 /\ accessible user_page 7) /\
  exists c,
    snd (miscdrv_init 0 true) = Some c /\
    (tx c = 0 /\ rx c = 0 /\ err c = 0 /\ myword c = 0 /\
     config1 c = 0 /\ config2 c = 0 /\ config3 c = 0) /\
    (length initmsg = 7%nat /\
     oursecret c = initmsg ++ NUL :: replicate 120 NUL /\
     length (oursecret c) = 128%nat) /\
    let r := read_miscdrv_rdwr c user_page 128 in
    ret r = 7 /\
    take (Z.to_nat (ret r)) (ubuf_after r) = initmsg /\
    tx (ctx_after r) = 7.
Proof.
  assert (fst (miscdrv_init 0 true) = 0) as H1 by reflexivity.
  assert (accessible user_page 7) as H2 by (vm_compute; congruence).
  split; [exact (conj H1 H2)|].
  exact (attach_then_first_read 0 true user_page H1 H2).
Defined.

(** C2, as stated, fails: the five bytes of ["hello"] written with
    [count = 5] (the write returns 5) come back as the four bytes ["hell"],
    and [tx] is 4. *)
Lemma roundtrip_hello_comes_back_short :
  let w := write_miscdrv_rdwr (Some slab_chunk) attach_ctx hello 5 in
  let r := read_miscdrv_rdwr (ctx_after w) user_page 128 in
  write_returns (Some slab_chunk) hello 5 = true /\
  ret w = 5 /\ rx (ctx_after w) = 5 /\
  ret r = 4 /\
  take (Z.to_nat (ret r)) (ubuf_after r)
    = String.list_byte_of_string "hell"%string /\
  take (Z.to_nat (ret r)) (ubuf_after r) <> hello /\
  tx (ctx_after r) <> 5.
Proof. vm_compute. repeat split; congruence. Qed.

(** C2, amended. [count] is the size handed to [strlcpy], which keeps room
    for the terminator. For every payload [P] with
    [0 < len(P) <= MAXBYTES], a write of [P] with [count = len(P)] that
    succeeds (it returns, and not a negative errno), followed by a read
    with [count' >= MAXBYTES], gives back the [n] bytes of [P] that precede
    its first NUL, and at most the first [len(P) - 1] bytes:
    [n = min(strnlen(P, len(P)), len(P) - 1)]. That is all of [P] but its
    last byte when [P] holds no NUL, and the string [s] when [P] is a
    NUL-free [s] followed by its terminator. When [n > 0] (and the reader's
    buffer takes [n] bytes) the read returns [n] and those bytes, and [tx],
    an [int], has grown by [n] provided [tx + n <= INT_MAX]; when [n = 0]
    the read fails with [-EINVAL] and [tx] is as before. *)
Theorem roundtrip_returns_stored_prefix heap c P rest dst count' :
  length (oursecret c) = Z.to_nat MAXBYTES -> in_int (tx c) ->
  (0 < length P)%nat -> Z.of_nat (length P) <= MAXBYTES ->
  MAXBYTES <= count' ->
  let count := Z.of_nat (length P) in
  let n := stored_len P count in
  let w := write_miscdrv_rdwr heap c (P ++ rest) count in
  let r := read_miscdrv_rdwr (ctx_after w) dst count' in
  write_returns heap (P ++ rest) count = true -> 0 <= ret w ->
  ret w = count /\
  (Forall (λ b, b <> NUL) P -> n = (length P - 1)%nat) /\
  (forall s, P = s ++ [NUL] -> Forall (λ b, b <> NUL) s -> n = length s) /\
  ((0 < n)%nat -> accessible dst (Z.of_nat n) ->
   ret r = Z.of_nat n /\
   take (Z.to_nat (ret r)) (ubuf_after r) = take n P /\
   (tx c + Z.of_nat n <= INT_MAX -> tx (ctx_after r) = tx c + Z.of_nat n)) /\
  (n = 0%nat -> ret r = - EINVAL /\ tx (ctx_after r) = tx c).
Proof.
  intros Hl Ht Hpos Hmax Hc' count n w r _ Hok.
  assert (0 < count <= MAXBYTES) as Hc by (subst count; lia).
  destruct (write_ctx_after heap c (P ++ rest) count (Z.lt_le_incl _ _ (proj1 Hc)))
    as [[_ [Hneg|Hbig]]|(_ & Ha & Hret & mem & -> & _)];
    [fold w in Hneg; lia|lia|].
  fold w in Hret.
  assert (n <= length P - 1)%nat as Hn
    by (subst n count; unfold stored_len; lia).
  assert (secret_len (ctx_after w) = Z.of_nat n) as Hlen.
  { subst w. rewrite write_secret_len by done. subst n count.
    by rewrite stored_len_app. }
  assert (secret (ctx_after w) = take n P) as Hsec.
  { subst w. rewrite write_secret by done. subst count.
    rewrite stored_len_app. fold n. apply take_app_le. lia. }
  assert (tx (ctx_after w) = tx c) as Htx
    by (subst w; rewrite write_ok by (done || lia); done).
  split; [done|]. split; [|split; [|split]].
  - intros HP. subst n count. unfold stored_len.
    rewrite Nat2Z.id, strnlen_nul_free by done. lia.
  - intros s -> Hs. subst n count. unfold stored_len.
    rewrite Nat2Z.id, length_app. simpl.
    rewrite strnlen_terminated by (done || lia). lia.
  - intros Hn0 Hdst. subst r.
    rewrite read_ok by (rewrite ?Hlen; done || lia).
    cbn [ret ctx_after ubuf_after set_tx tx].
    rewrite take_memcpy_secret, Hlen, Hsec, Htx.
    split; [done|]. split; [done|].
    intros Hfit. apply to_int_id.
    unfold in_int, INT_MIN, INT_MAX in *. lia.
  - intros Hn0. subst r. rewrite read_empty by (rewrite Hlen; lia).
    cbn [ret ctx_after]. done.
Qed.

Lemma roundtrip_returns_stored_prefix_witness :
  (length (oursecret attach_ctx) = Z.to_nat MAXBYTES /\
   in_int (tx attach_ctx) /\
   (0 < length hello)%nat /\ Z.of_nat (length hello) <= MAXBYTES /\
   MAXBYTES <= 128 /\
   write_returns (Some slab_chunk) (hello ++ []) (Z.of_nat (length hello))
     = true /\
   0 <= ret (write_miscdrv_rdwr (Some slab_chunk) attach_ctx (hello ++ [])
               (Z.of_nat (length hello)))) /\
  let count := Z.of_nat (length hello) in
  let n := stored_len hello count in
  let w := write_miscdrv_rdwr (Some slab_chunk) attach_ctx (hello ++ [])
             count in
  let r := read_miscdrv_rdwr (ctx_after w) user_page 128 in
  ret w = count /\
  (Forall (λ b, b <> NUL) hello -> n = (length hello - 1)%nat) /\
  (forall s, hello = s ++ [NUL] -> Forall (λ b, b <> NUL) s -> n = length s) /\
  ((0 < n)%nat -> accessible user_page (Z.of_nat n) ->
   ret r = Z.of_nat n /\
   take (Z.to_nat (ret r)) (ubuf_after r) = take n hello /\
   (tx attach_ctx + Z.of_nat n <= INT_MAX ->
    tx (ctx_after r) = tx attach_ctx + Z.of_nat n)) /\
  (n = 0%nat -> ret r = - EINVAL /\ tx (ctx_after r) = tx attach_ctx).
Proof.
  assert (length (oursecret attach_ctx) = Z.to_nat MAXBYTES) as H1
    by reflexivity.
  assert (in_int (tx attach_ctx)) as H2 by (vm_compute; split; congruence).
  assert (0 < length hello)%nat as H3 by (simpl; lia).
  assert (Z.of_nat (length hello) <= MAXBYTES) as H4
    by (vm_compute; congruence).
  assert (MAXBYTES <= 128) as H5 by (vm_compute; congruence).
  assert (write_returns (Some slab_chunk) (hello ++ [])
            (Z.of_nat (length hello)) = true) as H6 by reflexivity.
  assert (0 <= ret (write_miscdrv_rdwr (Some slab_chunk) attach_ctx
                      (hello ++ []) (Z.of_nat (length hello)))) as H7
    by (vm_compute; congruence).
  split; [exact (conj H1 (conj H2 (conj H3 (conj H4 (conj H5 (conj H6 H7))))))|].
  exact (roundtrip_returns_stored_prefix
           (Some slab_chunk) attach_ctx hello [] user_page 128
           H1 H2 H3 H4 H5 H6 H7).
Defined.

(** C3. A write with [count = 0] does not leave the secret empty.
    [kvmalloc(0)] returns [ZERO_SIZE_PTR], where no byte can be read, and
    [strlcpy] calls [strlen] on it before it looks at its size of 0: the
    call faults there instead of returning 0. And whatever [kvmalloc]
    returns, the function stores nothing for a size of 0: the bytes of the
    secret, its logical length and the string it holds are those from
    before the call, so a following read is not turned into the failure of
    the empty-secret rule. *)
Theorem write_zero_never_empties_secret c ubuf :
  write_returns ZERO_SIZE_PTR ubuf 0 = false /\
  forall heap,
    let w := write_miscdrv_rdwr heap c ubuf 0 in
    oursecret (ctx_after w) = oursecret c /\
    secret_len (ctx_after w) = secret_len c /\
    secret (ctx_after w) = secret c.
Proof.
  split.
  - unfold write_returns, ZERO_SIZE_PTR, kvmalloc, copy_from_user.
    rewrite Z.min_l by lia. reflexivity.
  - intros [mem|] w; subst w.
    + rewrite write_ok by (unfold accessible, MAXBYTES; lia).
      unfold secret, secret_len.
      cbn [ctx_after set_rx set_oursecret oursecret].
      by rewrite strlcpy_zero.
    + rewrite write_nomem by (unfold MAXBYTES; lia). done.
Qed.

(** ** The counters over the lifetime of the context *)




(** C10. In every state reached after attach, through any sequence of
    opens, reads, writes and closes, the 128-byte secret has a terminator
    at an index below 128, so its logical length is at most 127; a read
    never returns more than 127 and never asks [copy_to_user] for more
    than 127 bytes. *)
Theorem secret_stays_terminated d :
  reachable d ->
  length (oursecret (ctx d)) = Z.to_nat MAXBYTES /\
  (exists i, (i < Z.to_nat MAXBYTES)%nat /\
             oursecret (ctx d) !! i = Some NUL) /\
  secret_len (ctx d) <= MAXBYTES - 1 /\
  forall ubuf count,
    let r := read_miscdrv_rdwr (ctx d) ubuf count in
    ret r <= MAXBYTES - 1 /\
    forall n k, CopyToUser n k ∈ calls r -> n <= MAXBYTES - 1.
Proof.
  intros Hd. destruct (reachable_inv d Hd) as ((Hl & _ & _) & Hs).
  pose proof (secret_len_range (ctx d)) as Hr.
  split; [done|]. split; [|split; [lia|]].
  - exists (strnlen (oursecret (ctx d)) (Z.to_nat MAXBYTES)).
    unfold secret_len, MAXBYTES in *. split; [lia|].
    apply strnlen_stops; lia.
  - intros ubuf count r. subst r.
    destruct (Z.lt_ge_cases count MAXBYTES) as [Hc|Hc].
    { rewrite read_short by done. cbn. unfold EINVAL, MAXBYTES.
      split; [lia|]. intros n k Hin. by apply elem_of_nil in Hin. }
    destruct (Z.eq_dec (secret_len (ctx d)) 0) as [He|He].
    { rewrite read_empty by done. cbn. unfold EINVAL, MAXBYTES.
      split; [lia|]. intros n k Hin. by apply elem_of_nil in Hin. }
    destruct (Z.le_gt_cases (secret_len (ctx d)) (Z.of_nat (length ubuf)))
      as [Ha|Ha].
    + rewrite read_ok by (done || lia). cbn [ret calls].
      split; [lia|]. intros n k Hin.
      apply list_elem_of_singleton in Hin. injection Hin as -> _. lia.
    + rewrite read_fault by (unfold accessible; lia). cbn [ret calls].
      unfold EFAULT, MAXBYTES in *.
      split; [lia|]. intros n k Hin.
      apply list_elem_of_singleton in Hin. injection Hin as -> _. lia.
Qed.

Lemma secret_stays_terminated_witness :
  reachable attach_driver /\
  (length (oursecret (ctx attach_driver)) = Z.to_nat MAXBYTES /\
   (exists i, (i < Z.to_nat MAXBYTES)%nat /\
              oursecret (ctx attach_driver) !! i = Some NUL) /\
   secret_len (ctx attach_driver) <= MAXBYTES - 1 /\
   forall ubuf count,
     let r := read_miscdrv_rdwr (ctx attach_driver) ubuf count in
     ret r <= MAXBYTES - 1 /\
     forall n k, CopyToUser n k ∈ calls r -> n <= MAXBYTES - 1).
Proof.
  split; [exact attach_reachable|].
  exact (secret_stays_terminated attach_driver attach_reachable).
Defined.

(** * Further properties of the driver methods *)

(** ** read_miscdrv_rdwr *)

(** The three ways out of [read_miscdrv_rdwr]. *)
Lemma read_cases c ubuf count :
  let r := read_miscdrv_rdwr c ubuf count in
  (r = mk_outcome (- EINVAL) c ubuf [] /\
   (count < MAXBYTES \/ secret_len c = 0)) \/
  (r = mk_outcome (- EFAULT) c
         (memcpy ubuf (oursecret c) (length ubuf))
         [CopyToUser (secret_len c) (secret_len c - Z.of_nat (length ubuf))] /\
   MAXBYTES <= count /\ 0 < secret_len c /\ ~ accessible ubuf (secret_len c)) \/
  (r = mk_outcome (secret_len c)
         (set_tx c (to_int (tx c + secret_len c)))
         (memcpy ubuf (oursecret c) (Z.to_nat (secret_len c)))
         [CopyToUser (secret_len c) 0] /\
   MAXBYTES <= count /\ 0 < secret_len c /\ accessible ubuf (secret_len c)).
Proof.
  intros r. subst r.
  pose proof (secret_len_range c) as Hr.
  destruct (Z.lt_ge_cases count MAXBYTES) as [Hc|Hc].
  { left. rewrite read_short by done. auto. }
  destruct (Z.eq_dec (secret_len c) 0) as [He|He].
  { left. rewrite read_empty by done. auto. }
  destruct (Z.le_gt_cases (secret_len c) (Z.of_nat (length ubuf))) as [Ha|Ha].
  - right. right. rewrite read_ok by (done || lia).
    repeat split; (done || lia).
  - right. left. rewrite read_fault by (unfold accessible; lia).
    repeat split; try (done || lia). unfold accessible. lia.
Qed.

Lemma strnlen_leading_nul s n : s !! 0%nat = Some NUL -> strnlen s n = 0%nat.
Proof.
  destruct n as [|n], s as [|b s]; simpl; try done.
  intros [= ->]. done.
Qed.

(** What a read returns and delivers does not depend on [tx]. *)
Lemma read_set_tx c v ubuf count :
  let r := read_miscdrv_rdwr c ubuf count in
  let r' := read_miscdrv_rdwr (set_tx c v) ubuf count in
  ret r' = ret r /\ ubuf_after r' = ubuf_after r /\ calls r' = calls r.
Proof.
  unfold read_miscdrv_rdwr. cbn [set_tx oursecret].
  destruct (count <? MAXBYTES); [done|].
  destruct (_ <=? 0); [done|].
  destruct (copy_to_user _ _ _) as [u k].
  destruct (negb (k =? 0)); done.
Qed.

(** A read of a secret whose first byte is the terminator fails with
    [-EINVAL] whatever [count] is; nothing is copied and the context is
    unchanged. *)
Theorem read_of_empty_secret_rejected c ubuf count :
  oursecret c !! 0%nat = Some NUL ->
  read_miscdrv_rdwr c ubuf count = mk_outcome (- EINVAL) c ubuf [].
Proof.
  intros H0. apply read_empty. unfold secret_len.
  by rewrite strnlen_leading_nul.
Qed.

Lemma read_of_empty_secret_rejected_witness :
  oursecret zeroed_ctx !! 0%nat = Some NUL /\
  read_miscdrv_rdwr zeroed_ctx user_page 4096
    = mk_outcome (- EINVAL) zeroed_ctx user_page [].
Proof.
  assert (oursecret zeroed_ctx !! 0%nat = Some NUL) as H by reflexivity.
  split; [exact H|].
  exact (read_of_empty_secret_rejected zeroed_ctx user_page 4096 H).
Defined.

(** A read whose [copy_to_user] faults (the caller's buffer has fewer
    writable bytes than the secret is long) returns [-EFAULT] and leaves the
    context, [tx] included, unchanged; the writable bytes have nevertheless
    been overwritten with the beginning of the secret. *)
Theorem read_copy_fault_keeps_context c ubuf count :
  MAXBYTES <= count -> 0 < secret_len c ->
  ~ accessible ubuf (secret_len c) ->
  let r := read_miscdrv_rdwr c ubuf count in
  ret r = - EFAULT /\ ctx_after r = c /\
  ubuf_after r = take (length ubuf) (secret c).
Proof.
  intros Hc Hs Ha r. subst r. rewrite read_fault by done.
  cbn [ret ctx_after ubuf_after]. split; [done|]. split; [done|].
  unfold memcpy, secret, accessible in *.
  rewrite drop_all, app_nil_r, take_take. f_equal. lia.
Qed.

Lemma read_copy_fault_keeps_context_witness :
  (MAXBYTES <= 128 /\ 0 < secret_len attach_ctx /\
   ~ accessible (take 3 user_page) (secret_len attach_ctx)) /\
  let r := read_miscdrv_rdwr attach_ctx (take 3 user_page) 128 in
  ret r = - EFAULT /\ ctx_after r = attach_ctx /\
  ubuf_after r = take (length (take 3 user_page)) (secret attach_ctx).
Proof.
  assert (MAXBYTES <= 128) as H1 by (vm_compute; congruence).
  assert (0 < secret_len attach_ctx) as H2 by reflexivity.
  assert (~ accessible (take 3 user_page) (secret_len attach_ctx)) as H3
    by (vm_compute; intros H; apply H; reflexivity).
  split; [exact (conj H1 (conj H2 H3))|].
  exact (read_copy_fault_keeps_context
           attach_ctx (take 3 user_page) 128 H1 H2 H3).
Defined.

(** A read returns [-EINVAL], [-EFAULT] or the length of the secret, which
    is then between 1 and [MAXBYTES]: it never returns 0, so a reader never
    sees end-of-file. *)
Theorem read_never_returns_zero c ubuf count :
  let r := read_miscdrv_rdwr c ubuf count in
  ret r <> 0 /\
  (ret r = - EINVAL \/ ret r = - EFAULT \/
   (ret r = secret_len c /\ 1 <= ret r <= MAXBYTES)).
Proof.
  intros r. pose proof (secret_len_range c) as Hr.
  destruct (read_cases c ubuf count)
    as [[Heq _]|[(Heq & _)|(Heq & _ & Hs & _)]];
    fold r in Heq; rewrite Heq; cbn [ret]; unfold EINVAL, EFAULT.
  - split; [lia|auto].
  - split; [lia|auto].
  - split; [lia|]. right. right. split; [done|lia].
Qed.

(** Whatever its outcome, a read leaves the size of the caller's buffer
    and every byte of it from index [secret_len] on as they were. *)
Theorem read_writes_at_most_secret_len c ubuf count :
  let r := read_miscdrv_rdwr c ubuf count in
  length (ubuf_after r) = length ubuf /\
  drop (Z.to_nat (secret_len c)) (ubuf_after r)
    = drop (Z.to_nat (secret_len c)) ubuf.
Proof.
  intros r.
  pose proof (strnlen_le_length (oursecret c) (Z.to_nat MAXBYTES)) as Hl.
  destruct (read_cases c ubuf count)
    as [[Heq _]|[(Heq & _ & _ & Ha)|(Heq & _ & _ & Ha)]];
    fold r in Heq; rewrite Heq; cbn [ubuf_after];
    unfold memcpy, accessible, secret_len in *.
  - done.
  - rewrite length_app, length_take, length_drop. split; [lia|].
    rewrite !drop_ge; [done|lia|].
    rewrite length_app, length_take, length_drop. lia.
  - rewrite length_app, length_take, length_drop. split; [lia|].
    rewrite drop_app_length'; [done|]. rewrite length_take. lia.
Qed.

(** The bytes a successful read delivers contain no terminator: the
    caller gets the characters of the string only. *)
Theorem read_delivers_no_terminator c ubuf count :
  let r := read_miscdrv_rdwr c ubuf count in
  0 < ret r ->
  Forall (λ b, b <> NUL) (take (Z.to_nat (ret r)) (ubuf_after r)).
Proof.
  intros r.
  destruct (read_cases c ubuf count) as [[Heq _]|[(Heq & _)|(Heq & _)]];
    fold r in Heq; rewrite Heq; cbn [ret ubuf_after]; unfold EINVAL, EFAULT;
    try lia.
  intros _. rewrite take_memcpy_secret. unfold secret, secret_len.
  rewrite Nat2Z.id. apply strnlen_prefix_nul_free.
Qed.

Lemma read_delivers_no_terminator_witness :
  0 < ret (read_miscdrv_rdwr attach_ctx user_page 128) /\
  let r := read_miscdrv_rdwr attach_ctx user_page 128 in
  Forall (λ b, b <> NUL) (take (Z.to_nat (ret r)) (ubuf_after r)).
Proof.
  assert (0 < ret (read_miscdrv_rdwr attach_ctx user_page 128)) as H
    by reflexivity.
  split; [exact H|].
  exact (read_delivers_no_terminator attach_ctx user_page 128 H).
Defined.

(** A read does not consume the secret: it leaves the secret and [rx] as
    they were, and a read that follows it returns and delivers what it
    would have without it. *)
Theorem read_does_not_consume c ubuf count dst count' :
  let r1 := read_miscdrv_rdwr c ubuf count in
  let r2 := read_miscdrv_rdwr (ctx_after r1) dst count' in
  oursecret (ctx_after r1) = oursecret c /\ rx (ctx_after r1) = rx c /\
  ret r2 = ret (read_miscdrv_rdwr c dst count') /\
  ubuf_after r2 = ubuf_after (read_miscdrv_rdwr c dst count').
Proof.
  intros r1 r2. subst r1 r2.
  destruct (read_ctx_after c ubuf count) as [->|(_ & _ & ->)]; [done|].
  destruct (read_set_tx c (to_int (tx c + secret_len c)) dst count')
    as (Hret & Hbuf & _).
  done.
Qed.

(** ** write_miscdrv_rdwr *)

(** What [strlcpy] makes of the secret once the copy-in succeeded: the
    stored string comes from the caller's bytes alone. *)
Lemma strlcpy_staged dest mem ubuf count :
  0 < count <= Z.of_nat (length dest) -> accessible ubuf count ->
  fst (strlcpy dest (staged mem ubuf count) count)
    = take (stored_len ubuf count) ubuf
        ++ NUL :: drop (S (stored_len ubuf count)) dest.
Proof.
  intros Hc Ha. rewrite strlcpy_fst by done.
  rewrite copied_len_staged by (done || lia).
  f_equal. unfold staged, stored_len, accessible in *.
  rewrite take_app_le by (rewrite length_take; lia).
  rewrite take_take. f_equal. lia.
Qed.

(** The value returned by a write of at least one byte, for a [count]
    that is an [int] value and a call that returns (no fault in [strlen]),
    tells which way it went: [-ENOMEM] exactly when the staging buffer
    could not be allocated, [-EFAULT] exactly when the copy-in faulted, and
    [count] otherwise, also when [count] exceeds [MAXBYTES]; never
    [-EINVAL]. *)
Theorem write_return_values heap c ubuf count :
  1 <= count <= INT_MAX ->
  write_returns heap ubuf count = true ->
  let r := write_miscdrv_rdwr heap c ubuf count in
  (ret r = - ENOMEM <-> count <= MAXBYTES /\ heap = None) /\
  (ret r = - EFAULT <->
     count <= MAXBYTES /\ heap <> None /\ ~ accessible ubuf count) /\
  (ret r = count <->
     MAXBYTES < count \/ (heap <> None /\ accessible ubuf count)) /\
  ret r <> - EINVAL.
Proof.
  intros Hc _ r. subst r.
  assert (to_int count = count) as Hint
    by (apply to_int_id; unfold in_int, INT_MIN, INT_MAX in *; lia).
  unfold accessible.
  destruct (Z.lt_ge_cases MAXBYTES count) as [Hbig|Hle].
  { rewrite write_oversize by done. cbn [ret]. rewrite Hint.
    unfold ENOMEM, EFAULT, EINVAL, MAXBYTES in *.
    intuition (try lia; try congruence). }
  destruct heap as [mem|].
  2:{ rewrite write_nomem by done. cbn [ret].
      unfold ENOMEM, EFAULT, EINVAL, MAXBYTES in *.
      intuition (try lia; try congruence). }
  destruct (Z.le_gt_cases count (Z.of_nat (length ubuf))) as [Ha|Ha].
  - rewrite write_ok by (done || lia). cbn [ret].
    unfold ENOMEM, EFAULT, EINVAL, MAXBYTES in *.
    intuition (try lia; try congruence).
  - rewrite write_fault by (unfold accessible; lia). cbn [ret].
    unfold ENOMEM, EFAULT, EINVAL, MAXBYTES in *.
    intuition (try lia; try congruence).
Qed.

Lemma write_return_values_witness :
  (1 <= 6 <= INT_MAX /\
   write_returns (Some slab_chunk) hello_nul 6 = true) /\
  let r := write_miscdrv_rdwr (Some slab_chunk) attach_ctx hello_nul 6 in
  (ret r = - ENOMEM <-> 6 <= MAXBYTES /\ Some slab_chunk = None) /\
  (ret r = - EFAULT <->
     6 <= MAXBYTES /\ Some slab_chunk <> None /\ ~ accessible hello_nul 6) /\
  (ret r = 6 <->
     MAXBYTES < 6 \/ (Some slab_chunk <> None /\ accessible hello_nul 6)) /\
  ret r <> - EINVAL.
Proof.
  assert (1 <= 6 <= INT_MAX) as H1 by (vm_compute; split; congruence).
  assert (write_returns (Some slab_chunk) hello_nul 6 = true) as H2
    by reflexivity.
  split; [exact (conj H1 H2)|].
  exact (write_return_values (Some slab_chunk) attach_ctx hello_nul 6 H1 H2).
Defined.

(** Whenever a call through the file operations returns a negative value,
    the module (the context and the session counters) is exactly as it was
    before the call. *)
Theorem failed_call_changes_nothing op d :
  fop_ok op -> fst (dispatch op d) < 0 -> snd (dispatch op d) = d.
Proof.
  intros Hop. destruct op as [|ubuf count|heap ubuf count|]; cbn; try lia.
  - intros Hneg.
    destruct (read_ctx_after (ctx d) ubuf count) as [->|(Hpos & _)];
      [by destruct d|lia].
  - intros Hneg. destruct Hop as [H0 _].
    destruct (write_ctx_after heap (ctx d) ubuf count H0)
      as [[-> _]|(_ & _ & Hret & _)]; [by destruct d|lia].
Qed.

Lemma failed_call_changes_nothing_witness :
  (fop_ok (Read user_page 5) /\
   fst (dispatch (Read user_page 5) attach_driver) < 0) /\
  snd (dispatch (Read user_page 5) attach_driver) = attach_driver.
Proof.
  assert (fop_ok (Read user_page 5)) as H1
    by (vm_compute; split; congruence).
  assert (fst (dispatch (Read user_page 5) attach_driver) < 0) as H2
    by reflexivity.
  split; [exact (conj H1 H2)|].
  exact (failed_call_changes_nothing (Read user_page 5) attach_driver H1 H2).
Defined.





(** Among the writes of at least one byte that return, what is returned
    and stored does not depend on the bytes found in or behind the freshly
    allocated staging buffer: how far [strlen] scans past an unterminated
    buffer before it meets a NUL never shows in the result. *)
Theorem write_ignores_heap_contents mem1 mem2 c ubuf count :
  length (oursecret c) = Z.to_nat MAXBYTES -> 0 < count ->
  write_returns (Some mem1) ubuf count = true ->
  write_returns (Some mem2) ubuf count = true ->
  write_miscdrv_rdwr (Some mem1) c ubuf count
    = write_miscdrv_rdwr (Some mem2) c ubuf count.
Proof.
  intros Hl H0 _ _.
  destruct (Z.lt_ge_cases MAXBYTES count) as [Hbig|Hle].
  { by rewrite !write_oversize. }
  destruct (Z.le_gt_cases count (Z.of_nat (length ubuf))) as [Ha|Ha].
  - rewrite !write_ok by (done || lia).
    by rewrite !strlcpy_staged by (unfold MAXBYTES, accessible in *; lia).
  - by rewrite !write_fault by (unfold accessible; lia).
Qed.

Lemma write_ignores_heap_contents_witness :
  (length (oursecret attach_ctx) = Z.to_nat MAXBYTES /\ 0 < 5 /\
   write_returns (Some slab_chunk) hello 5 = true /\
   write_returns (Some slab_chunk2) hello 5 = true) /\
  write_miscdrv_rdwr (Some slab_chunk) attach_ctx hello 5
    = write_miscdrv_rdwr (Some slab_chunk2) attach_ctx hello 5.
Proof.
  assert (length (oursecret attach_ctx) = Z.to_nat MAXBYTES) as H1
    by reflexivity.
  assert (0 < 5) as H2 by reflexivity.
  assert (write_returns (Some slab_chunk) hello 5 = true) as H3
    by reflexivity.
  assert (write_returns (Some slab_chunk2) hello 5 = true) as H4
    by reflexivity.
  split; [exact (conj H1 (conj H2 (conj H3 H4)))|].
  exact (write_ignores_heap_contents
           slab_chunk slab_chunk2 attach_ctx hello 5 H1 H2 H3 H4).
Defined.





(** ** The methods together *)

(** Only a write that succeeds with [0 < count <= MAXBYTES] can change the
    bytes of the secret: opens, closes, reads, failed or oversized writes
    and writes of 0 bytes leave the array as it is. *)
Theorem secret_changes_only_by_write op d :
  fop_ok op ->
  oursecret (ctx (snd (dispatch op d))) <> oursecret (ctx d) ->
  exists heap ubuf count,
    op = Write heap ubuf count /\ 0 < count <= MAXBYTES /\
    heap <> None /\ accessible ubuf count /\ fst (dispatch op d) = count.
Proof.
  intros Hop. destruct op as [|ubuf count|heap ubuf count|]; cbn; try done.
  - destruct (read_ctx_after (ctx d) ubuf count) as [->|(_ & _ & ->)]; done.
  - destruct Hop as [H0 _].
    destruct (write_ctx_after heap (ctx d) ubuf count H0)
      as [[-> _]|(Hc & Ha & Hret & mem & -> & Hctx)]; [done|].
    rewrite Hctx. cbn [set_rx set_oursecret oursecret]. intros Hne.
    exists (Some mem), ubuf, count.
    destruct (Z.eq_dec count 0) as [->|Hnz]; [done|].
    repeat split; (done || lia).
Qed.

Lemma secret_changes_only_by_write_witness :
  (fop_ok (Write (Some slab_junk) hello 5) /\
   oursecret (ctx (snd (dispatch (Write (Some slab_junk) hello 5)
                                 attach_driver)))
     <> oursecret (ctx attach_driver)) /\
  exists heap ubuf count,
    Write (Some slab_junk) hello 5 = Write heap ubuf count /\
    0 < count <= MAXBYTES /\ heap <> None /\ accessible ubuf count /\
    fst (dispatch (Write (Some slab_junk) hello 5) attach_driver) = count.
Proof.
  assert (fop_ok (Write (Some slab_junk) hello 5)) as H1
    by (vm_compute; split; congruence).
  assert (oursecret (ctx (snd (dispatch (Write (Some slab_junk) hello 5)
                                        attach_driver)))
          <> oursecret (ctx attach_driver)) as H2
    by (vm_compute; congruence).
  split; [exact (conj H1 H2)|].
  exact (secret_changes_only_by_write
           (Write (Some slab_junk) hello 5) attach_driver H1 H2).
Defined.

(** ** Runs of calls *)

Lemma to_int_add_r a b : to_int (a + to_int b) = to_int (a + b).
Proof. by rewrite Z.add_comm, to_int_add_l, Z.add_comm. Qed.

Lemma write_keeps_tx heap c ubuf count :
  tx (ctx_after (write_miscdrv_rdwr heap c ubuf count)) = tx c.
Proof.
  unfold write_miscdrv_rdwr, kvmalloc.
  destruct (count >? MAXBYTES); [done|].
  destruct heap as [mem|]; [|done].
  destruct (copy_from_user _ _ _) as [kbuf k].
  destruct (negb (k =? 0)); [done|].
  by destruct (strlcpy _ _ _).
Qed.

Lemma run_cons op ops d :
  run (op :: ops) d
    = (fst (dispatch op d) :: fst (run ops (snd (dispatch op d))),
       snd (run ops (snd (dispatch op d)))).
Proof.
  simpl. destruct (dispatch op d) as [r d1]. simpl.
  by destruct (run ops d1).
Qed.

(** Over any sequence of calls, [tx] grows by the total of the byte counts
    its reads returned (as an [int]): nothing else moves it. *)
Theorem tx_totals_bytes_read ops d :
  in_int (tx (ctx d)) ->
  tx (ctx (snd (run ops d)))
    = to_int (tx (ctx d) + bytes_read ops (fst (run ops d))).
Proof.
  revert d. induction ops as [|op ops IH]; intros d Hd.
  - simpl. by rewrite Z.add_0_r, to_int_id.
  - rewrite run_cons. cbn [fst snd].
    destruct op as [|ubuf count|heap ubuf count|];
      cbn [dispatch open_miscdrv_rdwr close_miscdrv_rdwr fst snd bytes_read].
    + by rewrite IH.
    + destruct (read_cases (ctx d) ubuf count)
        as [[Heq _]|[(Heq & _)|(Heq & _ & Hs & _)]];
        cbn zeta in Heq; rewrite Heq; cbn [ret ctx_after].
      * rewrite IH by done. done.
      * rewrite IH by done. done.
      * rewrite IH by apply to_int_range. cbn [ctx set_tx tx].
        destruct (Z.ltb_spec 0 (secret_len (ctx d))); [|lia].
        rewrite to_int_add_l. f_equal. lia.
    + rewrite IH; cbn [ctx]; rewrite write_keeps_tx; done.
    + by rewrite IH.
Qed.

Lemma tx_totals_bytes_read_witness :
  in_int (tx (ctx attach_driver)) /\
  let ops := [Open; Read user_page 128; Read user_page 5;
              Write (Some slab_junk) hello 5; Read user_page 128; Release] in
  tx (ctx (snd (run ops attach_driver)))
    = to_int (tx (ctx attach_driver)
              + bytes_read ops (fst (run ops attach_driver))).
Proof.
  assert (in_int (tx (ctx attach_driver))) as H
    by (vm_compute; split; congruence).
  split; [exact H|].
  exact (tx_totals_bytes_read
           [Open; Read user_page 128; Read user_page 5;
            Write (Some slab_junk) hello 5; Read user_page 128; Release]
           attach_driver H).
Defined.

(** Over any sequence of calls, [rx] grows by the total of the byte counts
    returned by its writes of at most [MAXBYTES] bytes (as an [int]); the
    count an oversized write returns is not added. *)
Theorem rx_totals_bytes_written ops d :
  Forall fop_ok ops -> in_int (rx (ctx d)) ->
  rx (ctx (snd (run ops d)))
    = to_int (rx (ctx d) + bytes_written ops (fst (run ops d))).
Proof.
  intros Hops. revert d. induction Hops as [|op ops Hop Hops IH]; intros d Hd.
  - simpl. by rewrite Z.add_0_r, to_int_id.
  - rewrite run_cons. cbn [fst snd].
    destruct op as [|ubuf count|heap ubuf count|];
      cbn [dispatch open_miscdrv_rdwr close_miscdrv_rdwr fst snd
           bytes_written].
    + by rewrite IH.
    + destruct (read_ctx_after (ctx d) ubuf count) as [Heq|(_ & _ & Heq)];
        cbn zeta in Heq; rewrite IH; cbn [ctx]; rewrite Heq; done.
    + destruct Hop as [H0 _].
      destruct (write_ctx_after heap (ctx d) ubuf count H0)
        as [[Heq Hret]|(Hc & _ & Hret & mem & _ & Heq)];
        cbn zeta in Heq, Hret.
      * rewrite IH; cbn [ctx]; rewrite Heq; [|done].
        replace ((0 <=? _) && (count <=? MAXBYTES)) with false; [done|].
        symmetry. apply andb_false_iff.
        destruct Hret; [left; by apply Z.leb_gt|right; by apply Z.leb_gt].
      * rewrite IH; cbn [ctx]; rewrite Heq;
          cbn [set_rx set_oursecret rx]; [|apply to_int_range].
        rewrite Hret.
        replace ((0 <=? count) && (count <=? MAXBYTES)) with true
          by (symmetry; apply andb_true_iff; split; by apply Z.leb_le).
        rewrite to_int_add_l. f_equal. lia.
    + by rewrite IH.
Qed.

Lemma rx_totals_bytes_written_witness :
  (Forall fop_ok [Write (Some slab_junk) hello 5;
                  Write (Some slab_junk) user_page 200;
                  Write None hello 3; Read user_page 128] /\
   in_int (rx (ctx attach_driver))) /\
  let ops := [Write (Some slab_junk) hello 5;
              Write (Some slab_junk) user_page 200;
              Write None hello 3; Read user_page 128] in
  rx (ctx (snd (run ops attach_driver)))
    = to_int (rx (ctx attach_driver)
              + bytes_written ops (fst (run ops attach_driver))).
Proof.
  assert (Forall fop_ok [Write (Some slab_junk) hello 5;
                         Write (Some slab_junk) user_page 200;
                         Write None hello 3; Read user_page 128]) as H1
    by (repeat (constructor; [vm_compute; split; congruence|]); constructor).
  assert (in_int (rx (ctx attach_driver))) as H2
    by (vm_compute; split; congruence).
  split; [exact (conj H1 H2)|].
  exact (rx_totals_bytes_written _ attach_driver H1 H2).
Defined.

(** Over any sequence of calls, [ga] has grown and [gb] has shrunk by the
    number of opens minus the number of closes (as [int]s), reads and
    writes leaving both alone; so [ga + gb] is the same before and after,
    modulo 2^32. *)
Theorem session_counters_follow_opens ops d :
  in_int (ga d) -> in_int (gb d) ->
  let d' := snd (run ops d) in
  ga d' = to_int (ga d + net_opens ops) /\
  gb d' = to_int (gb d - net_opens ops) /\
  to_int (ga d' + gb d') = to_int (ga d + gb d).
Proof.
  intros Ha Hb d'. subst d'.
  assert (ga (snd (run ops d)) = to_int (ga d + net_opens ops) /\
          gb (snd (run ops d)) = to_int (gb d - net_opens ops)) as [Hga Hgb].
  { revert d Ha Hb. induction ops as [|op ops IH]; intros d Ha Hb.
    - simpl. by rewrite Z.add_0_r, Z.sub_0_r, !to_int_id.
    - rewrite run_cons. cbn [fst snd].
      destruct op as [|ubuf count|heap ubuf count|];
        cbn [dispatch open_miscdrv_rdwr close_miscdrv_rdwr fst snd net_opens].
      + destruct (IH (mk_driver (to_int (ga d + 1)) (to_int (gb d - 1)) (ctx d)))
          as [-> ->]; try apply to_int_range. cbn [ga gb].
        unfold Z.sub. rewrite !to_int_add_l. split; f_equal; lia.
      + destruct (IH (mk_driver (ga d) (gb d)
                        (ctx_after (read_miscdrv_rdwr (ctx d) ubuf count))))
          as [-> ->]; done.
      + destruct (IH (mk_driver (ga d) (gb d)
                        (ctx_after
                           (write_miscdrv_rdwr heap (ctx d) ubuf count))))
          as [-> ->]; done.
      + destruct (IH (mk_driver (to_int (ga d - 1)) (to_int (gb d + 1)) (ctx d)))
          as [-> ->]; try apply to_int_range. cbn [ga gb].
        unfold Z.sub. rewrite !to_int_add_l. split; f_equal; lia. }
  split; [done|]. split; [done|].
  rewrite Hga, Hgb, to_int_add_l, to_int_add_r. f_equal. lia.
Qed.

Lemma session_counters_follow_opens_witness :
  (in_int (ga attach_driver) /\ in_int (gb attach_driver)) /\
  let ops := [Open; Open; Read user_page 128; Release] in
  let d' := snd (run ops attach_driver) in
  ga d' = to_int (ga attach_driver + net_opens ops) /\
  gb d' = to_int (gb attach_driver - net_opens ops) /\
  to_int (ga d' + gb d') = to_int (ga attach_driver + gb attach_driver).
Proof.
  assert (in_int (ga attach_driver)) as H1 by (vm_compute; split; congruence).
  assert (in_int (gb attach_driver)) as H2 by (vm_compute; split; congruence).
  split; [exact (conj H1 H2)|].
  exact (session_counters_follow_opens
           [Open; Open; Read user_page 128; Release] attach_driver H1 H2).
Defined.

(** ** miscdrv_init *)

(** [miscdrv_init] sets the context up exactly when it returns 0, and the
    context is then always the same one; it fails with the error of
    [misc_register], or with [-ENOMEM] when the allocation of the context
    fails, and leaves no context behind in either case. *)
Theorem miscdrv_init_outcomes registered kzalloc_ok :
  let res := miscdrv_init registered kzalloc_ok in
  (fst res = 0 <-> snd res <> None) /\
  (fst res = 0 <-> registered = 0 /\ kzalloc_ok = true) /\
  (forall c, snd res = Some c -> c = attach_ctx /\ ctx_inv c) /\
  (fst res <> 0 ->
   snd res = None /\
   (fst res = registered \/ (registered = 0 /\ fst res = - ENOMEM))).
Proof.
  intros res. subst res.
  destruct (Z.eq_dec registered 0) as [->|Hr].
  - destruct kzalloc_ok.
    + rewrite miscdrv_init_ok. cbn [fst snd].
      split; [done|]. split; [done|]. split; [|done].
      intros c [= <-]. split; [done|apply attach_inv].
    + assert (miscdrv_init 0 false = (- ENOMEM, None)) as -> by reflexivity.
      cbn [fst snd]. unfold ENOMEM.
      intuition (try lia; try congruence).
  - assert (miscdrv_init registered kzalloc_ok = (registered, None)) as ->.
    { unfold miscdrv_init. by destruct (Z.eqb_spec registered 0). }
    cbn [fst snd]. intuition (try lia; try congruence).
Qed.
